(** * SteadyTimer: a C++/CLI wrapper around boost::asio::steady_timer

    Shallow embedding of [src/BoostTimer/BoostTimer.h].  The class
    [SteadyTimer] owns an [io_context] (the reactor) and one
    [steady_timer] (the deadline handle) and keeps two
    [steady_clock::time_point]s for its stopwatch.

    Layout of the development:
    - [Chrono]: 64-bit tick counts, [duration_cast], the saturating
      addition used by the timer service;
    - [IEEE]: the conversion of a 64-bit count to [double];
    - [Asio]: the deadline handle, the reactor and its [run] loop;
    - [DotNet]: [DateTime] and [ToFileTime];
    - [Timer]: the methods of [SteadyTimer], in the order of the header;
    - [Traces], [Lifetime]: the vocabulary of the later statements, and
      the object with its two pointers, its constructor and its finalizer;
    - [Throwing]: [run] and [AsyncWait] when a handler may throw;
    - the modules after [Throwing]: the properties, by topic.

    A handler is user code: running it is recorded in the trace and has
    no other effect on the timer; in [Timer] it returns, in [Throwing]
    it may end in an exception.  How late the scheduler resumes a
    blocked thread is an input of the blocking calls.  The header is C++/CLI, so the compiler
    is MSVC: [long long] and [time_t] are 64 bits wide, [int] is 32, and
    [system_clock] ticks every 100 ns. *)

From Stdlib Require Import ZArith List Bool Lia PeanoNat.
From Stdlib Require Import Floats.SpecFloat.
Import ListNotations.

Local Open Scope Z_scope.

(* ================================================================== *)
(** ** std::chrono on 64-bit counts *)

Module Chrono.

Definition int64_min : Z := - 2 ^ 63.
Definition int64_max : Z := 2 ^ 63 - 1.
Definition int32_min : Z := - 2 ^ 31.
Definition int32_max : Z := 2 ^ 31 - 1.

Definition int64 (z : Z) : Prop := int64_min <= z <= int64_max.
Definition int32 (z : Z) : Prop := int32_min <= z <= int32_max.

(** Two's-complement wrap-around of a [long long] and of an [int]. *)
Definition wrap64 (z : Z) : Z := (z + 2 ^ 63) mod 2 ^ 64 - 2 ^ 63.
Definition wrap32 (z : Z) : Z := (z + 2 ^ 31) mod 2 ^ 32 - 2 ^ 31.

(** [steady_clock::time_point] and [steady_clock::duration] both hold a
    [long long] count of nanoseconds. *)
Definition time_point := Z.
Definition duration := Z.

Definition ns_per_ms : Z := 1000000.
Definition ns_per_s : Z := 1000000000.

(** [t1 - t0] on two time points. *)
Definition tp_diff (t1 t0 : time_point) : duration := wrap64 (t1 - t0).

(** [t + d] on a time point and a duration. *)
Definition tp_plus (t : time_point) (d : duration) : time_point :=
  wrap64 (t + d).

(** [duration_cast] to a coarser unit divides the count by the ratio of
    the periods with C++ integer division, which truncates toward zero. *)
Definition duration_cast_seconds (d : duration) : Z := Z.quot d ns_per_s.
Definition duration_cast_milliseconds (d : duration) : Z := Z.quot d ns_per_ms.
Definition duration_cast_nanoseconds (d : duration) : Z := d.

(** [std::chrono::milliseconds(int)] followed by the implicit conversion
    to the timer's nanosecond duration. *)
Definition milliseconds (ms : Z) : duration := wrap64 (ms * ns_per_ms).

(** [chrono_time_traits::add]: the addition the timer service uses for a
    relative expiry; it saturates instead of overflowing. *)
Definition traits_add (t : time_point) (d : duration) : time_point :=
  if 0 <=? t then
    if tp_diff int64_max t <? d then int64_max else tp_plus t d
  else
    if d <? wrap64 (- tp_diff t int64_min) then int64_min else tp_plus t d.

End Chrono.

(* ================================================================== *)
(** ** Conversion of a 64-bit count to [double] *)

Module IEEE.

(** A [double] is a binary64 number: 53 bits of precision, infinities at
    exponent 1024. *)
Definition prec : Z := 53.
Definition emax : Z := 1024.

Definition double := spec_float.

(** The implicit conversion [long long -> double] of a [return] statement:
    the integer rounded to the nearest binary64 number, ties to even. *)
Definition double_of_int64 (n : Z) : double :=
  binary_normalize prec emax n 0 false.

(** The integer a [double] denotes, when it denotes one: a finite number
    [m * 2^e] is whole when [e >= 0] or when [2^(-e)] divides [m]. *)
Definition whole_value (f : double) : option Z :=
  match f with
  | S754_zero _ => Some 0
  | S754_finite s m e =>
      let sm := if s then Z.neg m else Z.pos m in
      if 0 <=? e then Some (sm * 2 ^ e)
      else if Z.pos m mod 2 ^ (- e) =? 0 then Some (sm / 2 ^ (- e))
      else None
  | S754_infinity _ | S754_nan => None
  end.

Definition is_whole (f : double) : bool :=
  match whole_value f with Some _ => true | None => false end.

End IEEE.

(* ================================================================== *)
(** ** The deadline handle and the reactor *)

Module Asio.
Import Chrono.

(** A .NET [Action^] delegate is named by an identifier; running it is
    user code, recorded in the trace as [Invoked]. *)
Definition Action := nat.

(** [boost::system::error_code] as the timer completions see it. *)
Inductive error_code := success | operation_aborted.

(** The completion handler handed to [async_wait], as a closure: the only
    one the header builds is the lambda of [AsyncWait], which captures
    [handler]. *)
Inductive completion := Lambda (handler : Action).

(** Calls on the two boost objects.  [p_cancel] and [p_cancel_one] carry
    the count the call returned. *)
Inductive primitive :=
| p_expires_at (t : time_point)
| p_expires_from_now (d : duration)
| p_expires_after (d : duration)
| p_async_wait (c : completion)
| p_wait
| p_cancel (n : nat)
| p_cancel_one (n : nat)
| p_run
| p_reset.

(** What happens while [run] is blocked on a pending wait: the deadline
    elapses and the reactor resolves the wait [late] nanoseconds after
    it, or another thread cancels on the handle first, [after]
    nanoseconds into the block. *)
Inductive intrusion :=
| Elapse (late : N)
| ByCancel (after : N)
| ByCancelOne (after : N).

Inductive event :=
| Called (p : primitive)              (* by the thread that owns the timer *)
| Intruded (p : primitive)            (* by another thread, during [run] *)
| Completed (c : completion) (ec : error_code)
| Invoked (h : Action).

(** [steady_timer]: the armed expiry and the waits pending on it, oldest
    first. *)
Record steady_timer := { expiry : time_point; waiters : list completion }.

(** [io_context]: the stopped flag and the completions ready to be
    dispatched, oldest first. *)
Record io_context := {
  stopped : bool;
  ready : list (completion * error_code) }.

(** The two objects, the steady clock and the observable trace. *)
Record world := {
  ctx : io_context;
  handle : steady_timer;
  clock : time_point;
  trace : list event }.

Definition log (e : event) (w : world) : world :=
  {| ctx := ctx w; handle := handle w; clock := clock w;
     trace := trace w ++ [e] |}.

Definition with_status (ec : error_code) (cs : list completion)
  : list (completion * error_code) :=
  map (fun c => (c, ec)) cs.

(** Every pending wait is handed to the reactor with [operation_aborted];
    the result is their number. *)
Definition cancel_ops (w : world) : nat * world :=
  (length (waiters (handle w)),
   {| ctx := {| stopped := stopped (ctx w);
                ready := ready (ctx w)
                           ++ with_status operation_aborted (waiters (handle w)) |};
      handle := {| expiry := expiry (handle w); waiters := [] |};
      clock := clock w; trace := trace w |}).

(** The same for the oldest pending wait only. *)
Definition cancel_one_op (w : world) : nat * world :=
  match waiters (handle w) with
  | [] => (0%nat, w)
  | c :: rest =>
      (1%nat,
       {| ctx := {| stopped := stopped (ctx w);
                    ready := ready (ctx w) ++ [(c, operation_aborted)] |};
          handle := {| expiry := expiry (handle w); waiters := rest |};
          clock := clock w; trace := trace w |})
  end.

(** The service's [expires_at]: cancel what is pending, store the expiry. *)
Definition set_expiry (t : time_point) (w : world) : world :=
  let w1 := snd (cancel_ops w) in
  {| ctx := ctx w1;
     handle := {| expiry := t; waiters := waiters (handle w1) |};
     clock := clock w1; trace := trace w1 |}.

Definition expires_at (t : time_point) (w : world) : world :=
  set_expiry t (log (Called (p_expires_at t)) w).

Definition expires_from_now (d : duration) (w : world) : world :=
  set_expiry (traits_add (clock w) d) (log (Called (p_expires_from_now d)) w).

Definition expires_after (d : duration) (w : world) : world :=
  set_expiry (traits_add (clock w) d) (log (Called (p_expires_after d)) w).

Definition async_wait (c : completion) (w : world) : world :=
  let w1 := log (Called (p_async_wait c)) w in
  {| ctx := ctx w1;
     handle := {| expiry := expiry (handle w1);
                  waiters := waiters (handle w1) ++ [c] |};
     clock := clock w1; trace := trace w1 |}.

(** The blocking [wait]: return once the clock has reached the expiry,
    [late] nanoseconds after it did. *)
Definition wait (late : N) (w : world) : world :=
  let w1 := log (Called p_wait) w in
  {| ctx := ctx w1; handle := handle w1;
     clock := Z.max (clock w1) (expiry (handle w1)) + Z.of_N late;
     trace := trace w1 |}.

Definition cancel (w : world) : nat * world :=
  let (n, w1) := cancel_ops w in (n, log (Called (p_cancel n)) w1).

Definition cancel_one (w : world) : nat * world :=
  let (n, w1) := cancel_one_op w in (n, log (Called (p_cancel_one n)) w1).

(** The body of the lambda of [AsyncWait]:
    [if (!ec) { handler(); }]. *)
Definition invoke_completion (c : completion) (ec : error_code) (w : world)
  : world :=
  match c with
  | Lambda handler =>
      match ec with
      | success => log (Invoked handler) w
      | operation_aborted => w
      end
  end.

(** The reactor takes the oldest ready completion [(c, ec)] off its queue
    and runs it. *)
Definition dispatch (c : completion) (ec : error_code)
  (rest : list (completion * error_code)) (w : world) : world :=
  invoke_completion c ec
    (log (Completed c ec)
       {| ctx := {| stopped := stopped (ctx w); ready := rest |};
          handle := handle w; clock := clock w; trace := trace w |}).

(** The deadline elapses: the clock has reached the expiry, [late]
    nanoseconds ago, and the pending waits become ready with no error. *)
Definition elapse (late : N) (w : world) : world :=
  {| ctx := {| stopped := stopped (ctx w);
               ready := ready (ctx w)
                          ++ with_status success (waiters (handle w)) |};
     handle := {| expiry := expiry (handle w); waiters := [] |};
     clock := Z.max (clock w) (expiry (handle w)) + Z.of_N late;
     trace := trace w |}.

(** [dt] nanoseconds pass. *)
Definition pass (dt : N) (w : world) : world :=
  {| ctx := ctx w; handle := handle w;
     clock := clock w + Z.of_N dt; trace := trace w |}.

Definition intrude (i : intrusion) (w : world) : world :=
  match i with
  | Elapse late => elapse late w
  | ByCancel after =>
      let (n, w1) := cancel_ops (pass after w) in
      log (Intruded (p_cancel n)) w1
  | ByCancelOne after =>
      let (n, w1) := cancel_one_op (pass after w) in
      log (Intruded (p_cancel_one n)) w1
  end.

Definition mark_stopped (w : world) : world :=
  {| ctx := {| stopped := true; ready := ready (ctx w) |};
     handle := handle w; clock := clock w; trace := trace w |}.

(** The loop of [io_context::run]: dispatch what is ready; with nothing
    ready and a wait pending, block until something happens ([env] says
    what, one entry per block, none meaning the deadline elapses and is
    noticed at once); with no work left, stop the context and return. *)
Fixpoint run_loop (fuel : nat) (env : list intrusion) (w : world)
  : option world :=
  match fuel with
  | O => None
  | S fuel' =>
      match ready (ctx w) with
      | (c, ec) :: rest => run_loop fuel' env (dispatch c ec rest w)
      | [] =>
          match waiters (handle w) with
          | [] => Some (mark_stopped w)
          | _ :: _ =>
              match env with
              | [] => run_loop fuel' [] (elapse 0 w)
              | i :: env' => run_loop fuel' env' (intrude i w)
              end
          end
      end
  end.

(** Work outstanding on the reactor; every turn of the loop lowers it. *)
Definition work (w : world) : nat :=
  2 * length (waiters (handle w)) + length (ready (ctx w)).

(** [io_context::run]: returns at once on a stopped context. *)
Definition run (env : list intrusion) (w : world) : option world :=
  let w1 := log (Called p_run) w in
  if stopped (ctx w1) then Some w1 else run_loop (S (work w1)) env w1.

(** [io_context::reset]: clear the stopped flag. *)
Definition reset (w : world) : world :=
  let w1 := log (Called p_reset) w in
  {| ctx := {| stopped := false; ready := ready (ctx w1) |};
     handle := handle w1; clock := clock w1; trace := trace w1 |}.

(** A freshly constructed context and timer. *)
Definition fresh (now : time_point) : world :=
  {| ctx := {| stopped := false; ready := [] |};
     handle := {| expiry := 0; waiters := [] |};
     clock := now; trace := [] |}.

(** The reactor has nothing to do. *)
Definition idle (w : world) : Prop :=
  ready (ctx w) = [] /\ waiters (handle w) = [].

End Asio.

(* ================================================================== *)
(** ** System.DateTime and the calendar clock *)

Module DotNet.
Import Chrono.

(** A [DateTime] of kind [Utc]: it counts ticks of 100 ns since
    0001-01-01T00:00:00 of universal time.  Values of kind [Local] or
    [Unspecified], which [ToFileTime] first converts to universal time
    with the offset of the local zone, are not represented. *)
Record DateTime := { Ticks : Z }.

Definition TicksPerSecond : Z := 10000000.

(** Ticks from 0001-01-01 to 1601-01-01, the epoch of a file time, and to
    1970-01-01, the epoch of [time_t]. *)
Definition FileTimeOffset : Z := 504911232000000000.
Definition UnixEpochTicks : Z := 621355968000000000.

(** [DateTime::ToFileTime]: ticks of 100 ns since 1601-01-01; a date
    before that raises [ArgumentOutOfRangeException]. *)
Definition ToFileTime (d : DateTime) : option Z :=
  let t := Ticks d - FileTimeOffset in
  if t <? 0 then None else Some t.

(** [system_clock::from_time_t]: [t] seconds since 1970-01-01 as a
    [system_clock::time_point], whose count is in ticks of 100 ns. *)
Definition from_time_t (t : Z) : time_point := wrap64 (t * TicksPerSecond).

(** The calendar instant of a [DateTime] on the scale of
    [system_clock::time_point]: ticks of 100 ns since 1970-01-01. *)
Definition system_clock_instant (d : DateTime) : Z := Ticks d - UnixEpochTicks.

(** The same instant as a [time_t], in whole seconds since 1970-01-01. *)
Definition unix_seconds (d : DateTime) : Z :=
  system_clock_instant d / TicksPerSecond.

End DotNet.

(* ================================================================== *)
(** ** The class SteadyTimer *)

Module Timer.
Import Chrono IEEE Asio DotNet.

(** The object: [heap] holds what [_ioContext] and [_timer] point to,
    with the clock and the trace. *)
Record state := {
  heap : world;
  _startTime : time_point;
  _stopTime : time_point }.

Definition _ioContext (s : state) : io_context := ctx (heap s).
Definition _timer (s : state) : steady_timer := handle (heap s).

Definition with_heap (w : world) (s : state) : state :=
  {| heap := w; _startTime := _startTime s; _stopTime := _stopTime s |}.

(** Time passes: the steady clock now reads [t]. *)
Definition at_instant (t : time_point) (s : state) : state :=
  with_heap {| ctx := ctx (heap s); handle := handle (heap s);
               clock := t; trace := trace (heap s) |} s.

(** The constructor, run when the clock reads [now]. *)
Definition SteadyTimer (now : time_point) : state :=
  {| heap := fresh now; _startTime := 0; _stopTime := 0 |}.

Definition Start (s : state) : state :=
  {| heap := heap s; _startTime := clock (heap s); _stopTime := _stopTime s |}.

Definition Stop (s : state) : state :=
  {| heap := heap s; _startTime := _startTime s; _stopTime := clock (heap s) |}.

Definition GetElapsedSeconds (s : state) : double :=
  let elapsed := duration_cast_seconds (tp_diff (_stopTime s) (_startTime s)) in
  double_of_int64 elapsed.

Definition GetElapsedMilliseconds (s : state) : double :=
  let elapsed := duration_cast_milliseconds (tp_diff (_stopTime s) (_startTime s)) in
  double_of_int64 elapsed.

Definition GetElapsedNanoseconds (s : state) : Z :=
  let elapsed := duration_cast_nanoseconds (tp_diff (_stopTime s) (_startTime s)) in
  elapsed.

(** [late] is how long after the expiry the blocked thread wakes up. *)
Definition Wait (late : N) (s : state) : state :=
  with_heap (wait late (heap s)) s.

(** The expiry [ExpiresAt] computes from its argument, when [ToFileTime]
    does not throw: the file time, cast to [time_t], through
    [from_time_t]. *)
Definition ExpiresAt_expiry (time : DateTime) : option time_point :=
  match ToFileTime time with
  | None => None
  | Some ft => Some (from_time_t ft)
  end.

(** [None] is the exception of [ToFileTime], which leaves the object as
    it was. *)
Definition ExpiresAt (time : DateTime) (s : state) : option state :=
  match ExpiresAt_expiry time with
  | None => None
  | Some expiry => Some (with_heap (expires_at expiry (heap s)) s)
  end.

Definition ExpiresFromNow (ms : Z) (s : state) : state :=
  with_heap (expires_from_now (milliseconds ms) (heap s)) s.

(** The first statement of [AsyncWait]. *)
Definition AsyncWait_arm (ms : Z) (s : state) : state :=
  with_heap (expires_after (milliseconds ms) (heap s)) s.

(** The second statement of [AsyncWait]. *)
Definition AsyncWait_register (handler : Action) (s : state) : state :=
  with_heap (async_wait (Lambda handler) (heap s)) s.

(** [AsyncWait]; [env] is what other threads do while [run] is blocked.
    [None] would be a [run] that does not return. *)
Definition AsyncWait (env : list intrusion) (ms : Z) (handler : Action)
  (s : state) : option state :=
  let s1 := AsyncWait_arm ms s in
  let s2 := AsyncWait_register handler s1 in
  match run env (heap s2) with
  | None => None
  | Some w3 => Some (with_heap (reset w3) s2)
  end.

Definition Cancel (s : state) : Z * state :=
  let (n, w) := cancel (heap s) in (wrap32 (Z.of_nat n), with_heap w s).

Definition CancelOne (s : state) : Z * state :=
  let (n, w) := cancel_one (heap s) in (wrap32 (Z.of_nat n), with_heap w s).

(** *** The public interface as data *)

Inductive call :=
| call_Start
| call_Stop
| call_GetElapsedSeconds
| call_GetElapsedMilliseconds
| call_GetElapsedNanoseconds
| call_Wait (late : N)
| call_ExpiresAt (time : DateTime)
| call_ExpiresFromNow (ms : Z)
| call_AsyncWait (env : list intrusion) (ms : Z) (handler : Action)
| call_Cancel
| call_CancelOne.

(** What the caller gets back. *)
Inductive outcome :=
| Void
| ReturnedDouble (d : double)
| ReturnedInt64 (z : Z)
| ReturnedInt (z : Z)
| Thrown.

(** One call on the object; [None] is a call that does not return. *)
Definition exec (c : call) (s : state) : option (outcome * state) :=
  match c with
  | call_Start => Some (Void, Start s)
  | call_Stop => Some (Void, Stop s)
  | call_GetElapsedSeconds => Some (ReturnedDouble (GetElapsedSeconds s), s)
  | call_GetElapsedMilliseconds =>
      Some (ReturnedDouble (GetElapsedMilliseconds s), s)
  | call_GetElapsedNanoseconds =>
      Some (ReturnedInt64 (GetElapsedNanoseconds s), s)
  | call_Wait late => Some (Void, Wait late s)
  | call_ExpiresAt time =>
      match ExpiresAt time s with
      | None => Some (Thrown, s)
      | Some s' => Some (Void, s')
      end
  | call_ExpiresFromNow ms => Some (Void, ExpiresFromNow ms s)
  | call_AsyncWait env ms handler =>
      match AsyncWait env ms handler s with
      | None => None
      | Some s' => Some (Void, s')
      end
  | call_Cancel => let (n, s') := Cancel s in Some (ReturnedInt n, s')
  | call_CancelOne => let (n, s') := CancelOne s in Some (ReturnedInt n, s')
  end.

(** A sequence of calls, each issued after the previous one returned,
    with the outcomes in call order. *)
Fixpoint exec_all (cs : list call) (s : state)
  : option (list outcome * state) :=
  match cs with
  | [] => Some ([], s)
  | c :: cs' =>
      match exec c s with
      | None => None
      | Some (o, s1) =>
          match exec_all cs' s1 with
          | None => None
          | Some (os, s2) => Some (o :: os, s2)
          end
      end
  end.

(** The handlers a trace shows as run, in order. *)
Fixpoint invoked (tr : list event) : list Action :=
  match tr with
  | [] => []
  | Invoked h :: tr' => h :: invoked tr'
  | _ :: tr' => invoked tr'
  end.

(** The calls the owning thread made on the boost objects, in order. *)
Fixpoint called (tr : list event) : list primitive :=
  match tr with
  | [] => []
  | Called p :: tr' => p :: called tr'
  | _ :: tr' => called tr'
  end.

(** The completions the reactor ran, each with the indicator it carried. *)
Fixpoint completed (tr : list event) : list (completion * error_code) :=
  match tr with
  | [] => []
  | Completed c ec :: tr' => (c, ec) :: completed tr'
  | _ :: tr' => completed tr'
  end.

(** How often [h] was run. *)
Definition invocations (h : Action) (tr : list event) : nat :=
  count_occ Nat.eq_dec (invoked tr) h.

(** Between two calls from one thread the reactor is ready to run and
    nothing is pending on it. *)
Definition quiescent (s : state) : Prop :=
  stopped (_ioContext s) = false /\ idle (heap s).

(** *** Vocabulary of the statements *)

(** The indicator the completion of a single wait carries, given what
    happens while [run] is blocked on it. *)
Definition indicator (env : list intrusion) : error_code :=
  match env with
  | ByCancel _ :: _ | ByCancelOne _ :: _ => operation_aborted
  | _ => success
  end.

(** What the reactor shows in the trace while it resolves that wait. *)
Definition reactor_events (env : list intrusion) (h : Action) : list event :=
  match env with
  | ByCancel _ :: _ =>
      [Intruded (p_cancel 1); Completed (Lambda h) operation_aborted]
  | ByCancelOne _ :: _ =>
      [Intruded (p_cancel_one 1); Completed (Lambda h) operation_aborted]
  | _ => [Completed (Lambda h) success; Invoked h]
  end.

(** The calls one [AsyncWait] makes on the boost objects. *)
Definition AsyncWait_calls (ms : Z) (h : Action) : list primitive :=
  [p_expires_after (milliseconds ms); p_async_wait (Lambda h); p_run; p_reset].


(** The three elapsed-time queries. *)
Definition is_query (c : call) : bool :=
  match c with
  | call_GetElapsedSeconds | call_GetElapsedMilliseconds
  | call_GetElapsedNanoseconds => true
  | _ => false
  end.

(** What a query answers, from the two recorded instants alone. *)
Definition answer (q : call) (start stop : time_point) : outcome :=
  match q with
  | call_GetElapsedSeconds =>
      ReturnedDouble (double_of_int64 (duration_cast_seconds (tp_diff stop start)))
  | call_GetElapsedMilliseconds =>
      ReturnedDouble (double_of_int64 (duration_cast_milliseconds (tp_diff stop start)))
  | call_GetElapsedNanoseconds =>
      ReturnedInt64 (duration_cast_nanoseconds (tp_diff stop start))
  | _ => Void
  end.

(** The expiry the specification asks of a relative deadline: [ms]
    milliseconds after the instant [now] of the call. *)
Definition relative_deadline (now : time_point) (ms : Z) : Z :=
  now + ms * 1000000.

(** 2025-01-01T00:00:00Z. *)
Definition new_year_2025 : DateTime := {| Ticks := 638712864000000000 |}.

End Timer.

(* ================================================================== *)
(** ** Vocabulary for traces and ranges *)

Module Traces.
Import Chrono Asio Timer.

(** The handlers a queue of completions invokes when the reactor runs it:
    those of the completions that carry no error. *)
Definition fired (q : list (completion * error_code)) : list Action :=
  flat_map (fun p => match p with
                     | (Lambda h, success) => [h]
                     | (Lambda _, operation_aborted) => []
                     end) q.

(** What the reactor writes to the trace when it runs a queue. *)
Definition dispatch_events (q : list (completion * error_code)) : list event :=
  flat_map (fun p => Completed (fst p) (snd p) :: map Invoked (fired [p])) q.

(** The completions the owning thread registered with [async_wait], in
    order. *)
Fixpoint registered (tr : list event) : list completion :=
  match tr with
  | [] => []
  | Called (p_async_wait c) :: tr' => c :: registered tr'
  | _ :: tr' => registered tr'
  end.

(** How often [AsyncWait] was given the handler [h]. *)
Definition registrations (h : Action) (tr : list event) : nat :=
  count_occ Nat.eq_dec
    (map (fun c => match c with Lambda h' => h' end) (registered tr)) h.

(** The clock reading at which [run] resolves a single wait, blocked at
    [now] on a handle armed at [expiry]. *)
Definition resolved_at (env : list intrusion) (now expiry : time_point)
  : time_point :=
  match env with
  | [] => Z.max now expiry
  | Elapse late :: _ => Z.max now expiry + Z.of_N late
  | ByCancel after :: _ | ByCancelOne after :: _ => now + Z.of_N after
  end.

(** The waits not yet resolved: those handed to the reactor and not yet
    run, then those still pending on the handle. *)
Definition outstanding (s : state) : list completion :=
  map fst (ready (_ioContext s)) ++ waiters (_timer s).

(** An instant cut to the range of a 64-bit count. *)
Definition clamp64 (z : Z) : Z := Z.max int64_min (Z.min int64_max z).

(** The calls that use [_timer] or [_ioContext]; [ExpiresAt] evaluates
    [time->ToFileTime()] first and reaches [_timer] only if that did not
    throw. *)
Definition dereferences (c : call) : bool :=
  match c with
  | call_Wait _ | call_ExpiresFromNow _ | call_AsyncWait _ _ _
  | call_Cancel | call_CancelOne => true
  | call_ExpiresAt time =>
      match ExpiresAt_expiry time with Some _ => true | None => false end
  | _ => false
  end.

End Traces.

(* ================================================================== *)
(** ** Construction and destruction *)

Module Lifetime.
Import Chrono IEEE Asio DotNet Timer.

(** The native objects the class allocates with [new]. *)
Inductive native := native_timer | native_io_context.

(** What [_ioContext] and [_timer] point to.  The constructor allocates
    the context first and the finalizer deletes the timer first, so a
    non-null [_timer] always comes with a non-null [_ioContext]. *)
Inductive natives :=
| Both (c : io_context) (t : steady_timer)
| ContextOnly (c : io_context)
| Neither.

(** The managed object: the pointers, the two instants, the clock, the
    trace, and the native objects deleted so far, in order. *)
Record object := {
  pointers : natives;
  startTime_of : time_point;
  stopTime_of : time_point;
  clock_of : time_point;
  trace_of : list event;
  deleted : list native }.

Definition timer_is_null (o : object) : bool :=
  match pointers o with Both _ _ => false | _ => true end.

Definition ioContext_is_null (o : object) : bool :=
  match pointers o with Neither => true | _ => false end.

(** The constructor, run when the clock reads [now]. *)
Definition construct (now : time_point) : object :=
  {| pointers := Both (ctx (fresh now)) (handle (fresh now));
     startTime_of := 0; stopTime_of := 0;
     clock_of := now; trace_of := []; deleted := [] |}.

(** [delete _timer; _timer = nullptr;] the destructor of the timer
    cancels the waits still pending on it. *)
Definition delete_timer (o : object) : object :=
  match pointers o with
  | Both c t =>
      {| pointers :=
           ContextOnly
             {| stopped := stopped c;
                ready := ready c ++ with_status operation_aborted (waiters t) |};
         startTime_of := startTime_of o; stopTime_of := stopTime_of o;
         clock_of := clock_of o; trace_of := trace_of o;
         deleted := deleted o ++ [native_timer] |}
  | _ => o
  end.

(** [delete _ioContext; _ioContext = nullptr;] the destructor of the
    context destroys the completions it still holds without running
    them. *)
Definition delete_ioContext (o : object) : object :=
  match pointers o with
  | Neither => o
  | _ =>
      {| pointers := Neither;
         startTime_of := startTime_of o; stopTime_of := stopTime_of o;
         clock_of := clock_of o; trace_of := trace_of o;
         deleted := deleted o ++ [native_io_context] |}
  end.

(** [!SteadyTimer()]. *)
Definition finalizer (o : object) : object :=
  let o1 := if timer_is_null o then o else delete_timer o in
  if ioContext_is_null o1 then o1 else delete_ioContext o1.

(** [~SteadyTimer()], which is [this->!SteadyTimer()]. *)
Definition destructor (o : object) : object := finalizer o.

(** The object as the methods see it while both pointers are set. *)
Definition state_of (o : object) : option state :=
  match pointers o with
  | Both c t =>
      Some {| heap := {| ctx := c; handle := t;
                         clock := clock_of o; trace := trace_of o |};
              _startTime := startTime_of o; _stopTime := stopTime_of o |}
  | _ => None
  end.

Definition store (s : state) (o : object) : object :=
  {| pointers := Both (ctx (heap s)) (handle (heap s));
     startTime_of := _startTime s; stopTime_of := _stopTime s;
     clock_of := clock (heap s); trace_of := trace (heap s);
     deleted := deleted o |}.

(** What a call on the object comes to: what the method returns, or the
    use of a null pointer. *)
Inductive result := Returned (out : outcome) | NullDereference.

(** A method that starts by using [_timer]. *)
Definition through_timer (c : call) (o : object) : option (result * object) :=
  match state_of o with
  | None => Some (NullDereference, o)
  | Some s =>
      match exec c s with
      | None => None
      | Some (out, s') => Some (Returned out, store s' o)
      end
  end.

(** One call on the object, whatever its pointers hold.  [Start], [Stop]
    and the three queries use neither pointer. *)
Definition invoke (c : call) (o : object) : option (result * object) :=
  match c with
  | call_Start =>
      Some (Returned Void,
            {| pointers := pointers o;
               startTime_of := clock_of o; stopTime_of := stopTime_of o;
               clock_of := clock_of o; trace_of := trace_of o;
               deleted := deleted o |})
  | call_Stop =>
      Some (Returned Void,
            {| pointers := pointers o;
               startTime_of := startTime_of o; stopTime_of := clock_of o;
               clock_of := clock_of o; trace_of := trace_of o;
               deleted := deleted o |})
  | call_GetElapsedSeconds =>
      Some (Returned
              (ReturnedDouble
                 (double_of_int64
                    (duration_cast_seconds
                       (tp_diff (stopTime_of o) (startTime_of o))))), o)
  | call_GetElapsedMilliseconds =>
      Some (Returned
              (ReturnedDouble
                 (double_of_int64
                    (duration_cast_milliseconds
                       (tp_diff (stopTime_of o) (startTime_of o))))), o)
  | call_GetElapsedNanoseconds =>
      Some (Returned
              (ReturnedInt64
                 (duration_cast_nanoseconds
                    (tp_diff (stopTime_of o) (startTime_of o)))), o)
  | call_ExpiresAt time =>
      match ExpiresAt_expiry time with
      | None => Some (Returned Thrown, o)
      | Some _ => through_timer c o
      end
  | _ => through_timer c o
  end.

(** A sequence of calls on the object, each issued after the previous
    one returned. *)
Fixpoint invoke_all (cs : list call) (o : object)
  : option (list result * object) :=
  match cs with
  | [] => Some ([], o)
  | c :: cs' =>
      match invoke c o with
      | None => None
      | Some (r, o1) =>
          match invoke_all cs' o1 with
          | None => None
          | Some (rs, o2) => Some (r :: rs, o2)
          end
      end
  end.

(** What the finalizer deletes, given what the pointers hold. *)
Definition to_delete (p : natives) : list native :=
  match p with
  | Both _ _ => [native_timer; native_io_context]
  | ContextOnly _ => [native_io_context]
  | Neither => []
  end.

End Lifetime.

(* ================================================================== *)
(** ** Handlers that throw *)

Module Throwing.
Import Chrono Asio DotNet Timer.

Section Handlers.

(** Whether running a handler ends in an exception: a delegate that
    throws, or a null [Action^]. *)
Variable throws : Action -> bool.

(** Whether running a completion ends in an exception: the lambda calls
    the handler only when the wait resolved without error. *)
Definition raises (c : completion) (ec : error_code) : bool :=
  match c, ec with
  | Lambda handler, success => throws handler
  | Lambda _, operation_aborted => false
  end.

(** When a completion has run, also when it left by an exception, the
    reactor counts one piece of work less, and stops if none is left. *)
Definition work_finished (w : world) : world :=
  match ready (ctx w), waiters (handle w) with
  | [], [] => mark_stopped w
  | _, _ => w
  end.

(** The loop of [io_context::run] when a completion may throw: the
    exception leaves the loop at once.  The flag says whether the loop
    was left by an exception. *)
Fixpoint run_loop_ex (fuel : nat) (env : list intrusion) (w : world)
  : option (bool * world) :=
  match fuel with
  | O => None
  | S fuel' =>
      match ready (ctx w) with
      | (c, ec) :: rest =>
          if raises c ec
          then Some (true, work_finished (dispatch c ec rest w))
          else run_loop_ex fuel' env (dispatch c ec rest w)
      | [] =>
          match waiters (handle w) with
          | [] => Some (false, mark_stopped w)
          | _ :: _ =>
              match env with
              | [] => run_loop_ex fuel' [] (elapse 0 w)
              | i :: env' => run_loop_ex fuel' env' (intrude i w)
              end
          end
      end
  end.

Definition run_ex (env : list intrusion) (w : world) : option (bool * world) :=
  let w1 := log (Called p_run) w in
  if stopped (ctx w1) then Some (false, w1)
  else run_loop_ex (S (work w1)) env w1.

(** [AsyncWait] when the handler may throw.  The header has no
    [try]/[finally]: an exception that leaves [run] leaves [AsyncWait]
    too, and [reset] is not reached. *)
Definition AsyncWait_ex (env : list intrusion) (ms : Z) (handler : Action)
  (s : state) : option (outcome * state) :=
  let s1 := AsyncWait_arm ms s in
  let s2 := AsyncWait_register handler s1 in
  match run_ex env (heap s2) with
  | None => None
  | Some (true, w3) => Some (Thrown, with_heap w3 s2)
  | Some (false, w3) => Some (Void, with_heap (reset w3) s2)
  end.

(** One call on the object; only [AsyncWait] runs handlers. *)
Definition exec_ex (c : call) (s : state) : option (outcome * state) :=
  match c with
  | call_AsyncWait env ms handler => AsyncWait_ex env ms handler s
  | _ => exec c s
  end.

(** A sequence of calls by one thread; a call left by an exception is
    followed by the next call, as when the caller catches. *)
Fixpoint exec_all_ex (cs : list call) (s : state)
  : option (list outcome * state) :=
  match cs with
  | [] => Some ([], s)
  | c :: cs' =>
      match exec_ex c s with
      | None => None
      | Some (o, s1) =>
          match exec_all_ex cs' s1 with
          | None => None
          | Some (os, s2) => Some (o :: os, s2)
          end
      end
  end.

(** Whether a call was left by an exception of its handler. *)
Definition handler_threw (c : call) (o : outcome) : bool :=
  match c, o with
  | call_AsyncWait _ _ _, Thrown => true
  | _, _ => false
  end.

(** The states one thread can bring the object to: construction, the
    passing of time, and calls, whether they return or are left by an
    exception.  A handler returns or throws; it does not call the timer
    itself.  The flag says whether a handler has thrown so far. *)
Inductive reachable : bool -> state -> Prop :=
| reach_new (now : time_point) : reachable false (SteadyTimer now)
| reach_time (b : bool) (t : time_point) (s : state) :
    reachable b s -> clock (heap s) <= t -> reachable b (at_instant t s)
| reach_call (b : bool) (c : call) (o : outcome) (s s' : state) :
    reachable b s -> exec_ex c s = Some (o, s') ->
    reachable (b || handler_threw c o) s'.

(** The state a sequence of calls leaves. *)
Definition after (cs : list call) (s : state) : state :=
  match exec_all_ex cs s with
  | Some (_, s') => s'
  | None => s
  end.

(** Whether some handler threw in a sequence of calls, given their
    outcomes. *)
Fixpoint any_threw (cs : list call) (os : list outcome) : bool :=
  match cs, os with
  | c :: cs', o :: os' => handler_threw c o || any_threw cs' os'
  | _, _ => false
  end.

End Handlers.

End Throwing.

(* ================================================================== *)
(** ** Facts about 64-bit counts *)

Module ChronoFacts.
Import Chrono.

(** Goals that a literal or a bounded sum lies in a machine range. *)
Ltac in_range :=
  unfold int64, int32, int64_min, int64_max, int32_min, int32_max in *;
  cbn; lia.

Lemma wrap64_id z : int64 z -> wrap64 z = z.
Proof.
  unfold int64, int64_min, int64_max, wrap64. intros H.
  rewrite Z.mod_small by lia. lia.
Qed.

Lemma wrap64_range z : int64 (wrap64 z).
Proof.
  unfold int64, int64_min, int64_max, wrap64.
  pose proof (Z.mod_pos_bound (z + 2 ^ 63) (2 ^ 64) ltac:(lia)). lia.
Qed.

Lemma wrap32_id z : int32 z -> wrap32 z = z.
Proof.
  unfold int32, int32_min, int32_max, wrap32. intros H.
  rewrite Z.mod_small by lia. lia.
Qed.

Lemma milliseconds_exact ms : int32 ms -> milliseconds ms = ms * ns_per_ms.
Proof.
  unfold int32, int32_min, int32_max, milliseconds, ns_per_ms. intros H.
  apply wrap64_id. unfold int64, int64_min, int64_max. lia.
Qed.

(** Within the representable range the saturating addition is addition. *)
Lemma traits_add_exact t d :
  int64 t -> int64 d -> int64 (t + d) -> traits_add t d = t + d.
Proof.
  unfold traits_add, tp_diff, tp_plus. intros Ht Hd Htd.
  assert (Hmax : int64_max = 2 ^ 63 - 1) by reflexivity.
  assert (Hmin : int64_min = - 2 ^ 63) by reflexivity.
  unfold int64 in *. rewrite Hmax, Hmin in *.
  destruct (0 <=? t) eqn:Hs.
  - apply Z.leb_le in Hs.
    rewrite (wrap64_id (2 ^ 63 - 1 - t)) by (unfold int64; rewrite Hmax, Hmin; lia).
    destruct (2 ^ 63 - 1 - t <? d) eqn:Hc.
    + apply Z.ltb_lt in Hc. lia.
    + apply wrap64_id. unfold int64. rewrite Hmax, Hmin. lia.
  - apply Z.leb_gt in Hs.
    rewrite (wrap64_id (t - - 2 ^ 63)) by (unfold int64; rewrite Hmax, Hmin; lia).
    rewrite (wrap64_id (- (t - - 2 ^ 63))) by (unfold int64; rewrite Hmax, Hmin; lia).
    destruct (d <? - (t - - 2 ^ 63)) eqn:Hc.
    + apply Z.ltb_lt in Hc. lia.
    + apply wrap64_id. unfold int64. rewrite Hmax, Hmin. lia.
Qed.

End ChronoFacts.

(* ================================================================== *)
(** ** Facts about the conversion to [double] *)

Module IEEEFacts.
Import IEEE.

Lemma digits2_pos_bounds (m : positive) :
  2 ^ (Z.pos (digits2_pos m) - 1) <= Z.pos m < 2 ^ Z.pos (digits2_pos m).
Proof.
  induction m as [m IH | m IH |]; cbn [digits2_pos].
  - rewrite Pos2Z.inj_succ.
    replace (Z.succ (Z.pos (digits2_pos m)) - 1) with (Z.succ (Z.pos (digits2_pos m) - 1)) by lia.
    rewrite !Z.pow_succ_r by lia. lia.
  - rewrite Pos2Z.inj_succ.
    replace (Z.succ (Z.pos (digits2_pos m)) - 1) with (Z.succ (Z.pos (digits2_pos m) - 1)) by lia.
    rewrite !Z.pow_succ_r by lia. lia.
  - cbn. lia.
Qed.

Lemma digits2_pos_le (m : positive) (k : Z) :
  Z.pos m < 2 ^ k -> Z.pos (digits2_pos m) <= k.
Proof.
  intros H. destruct (Z_le_gt_dec (Z.pos (digits2_pos m)) k) as [|Hgt]; [assumption|].
  exfalso. destruct (Z_lt_le_dec k 0) as [Hk|Hk].
  - rewrite Z.pow_neg_r in H by assumption. lia.
  - pose proof (digits2_pos_bounds m) as [Hlo _].
    assert (2 ^ k <= 2 ^ (Z.pos (digits2_pos m) - 1)) by (apply Z.pow_le_mono_r; lia).
    lia.
Qed.

Lemma iter_xO_value (k m : positive) :
  Z.pos (Pos.iter xO m k) = Z.pos m * 2 ^ Z.pos k.
Proof.
  induction k as [|k IH] using Pos.peano_ind.
  - cbn. lia.
  - rewrite Pos.iter_succ, Pos2Z.inj_succ, Z.pow_succ_r by lia.
    rewrite Pos2Z.inj_xO, IH. lia.
Qed.

Lemma iter_xO_digits (k m : positive) :
  Z.pos (digits2_pos (Pos.iter xO m k)) = Z.pos (digits2_pos m) + Z.pos k.
Proof.
  induction k as [|k IH] using Pos.peano_ind.
  - cbn. lia.
  - rewrite Pos.iter_succ. cbn [digits2_pos].
    rewrite !Pos2Z.inj_succ, IH. lia.
Qed.

(** A mantissa of exactly 53 bits with an exponent in range is already in
    canonical form: rounding leaves it alone. *)
Lemma binary_round_aux_canonical (s : bool) (mz : positive) (ez : Z) :
  Z.pos (digits2_pos mz) = 53 -> -1074 <= ez <= 971 ->
  binary_round_aux prec emax s (Z.pos mz) ez loc_Exact = S754_finite s mz ez.
Proof.
  intros Hd He.
  assert (Hf : fexp prec emax (Z.pos (digits2_pos mz) + ez) - ez = 0)
    by (unfold fexp, emin, prec, emax; lia).
  unfold binary_round_aux, shr_fexp.
  cbn [Zdigits2 shr_record_of_loc]. rewrite Hf.
  cbn [shr shr_m loc_of_shr_record round_nearest_even Zdigits2 shr_record_of_loc].
  rewrite Hf. cbn [shr shr_m].
  replace (ez <=? emax - prec) with true; [reflexivity|].
  symmetry. apply Z.leb_le. unfold emax, prec. lia.
Qed.

(** Below [2^53] the conversion is exact. *)
Lemma binary_round_small (s : bool) (m : positive) :
  Z.pos m < 2 ^ 53 ->
  whole_value (binary_round prec emax s m 0) =
  Some (if s then Z.neg m else Z.pos m).
Proof.
  intros Hm.
  pose proof (digits2_pos_le m 53 Hm) as Hd.
  assert (Hf : fexp prec emax (Z.pos (digits2_pos m) + 0) = Z.pos (digits2_pos m) - 53)
    by (unfold fexp, emin, prec, emax; lia).
  unfold binary_round. rewrite Hf. unfold shl_align.
  destruct (Z.pos (digits2_pos m) - 53 - 0) as [|k|k] eqn:Hk; try lia.
  - rewrite binary_round_aux_canonical by lia.
    cbn [whole_value]. cbn. destruct s; f_equal; lia.
  - rewrite binary_round_aux_canonical by (rewrite ?iter_xO_digits; lia).
    cbn [whole_value].
    assert (He : Z.pos (digits2_pos m) - 53 = - Z.pos k) by lia.
    rewrite He.
    replace (0 <=? - Z.pos k) with false by (symmetry; apply Z.leb_gt; lia).
    rewrite Z.opp_involutive, iter_xO_value.
    assert (Hp : 0 < 2 ^ Z.pos k) by (apply Z.pow_pos_nonneg; lia).
    rewrite Z.mod_mul by lia. cbn [Z.eqb].
    destruct s; f_equal.
    + change (Z.neg (Pos.iter xO m k)) with (- Z.pos (Pos.iter xO m k)).
      rewrite iter_xO_value.
      replace (- (Z.pos m * 2 ^ Z.pos k)) with ((- Z.pos m) * 2 ^ Z.pos k) by lia.
      rewrite Z.div_mul by lia. reflexivity.
    + rewrite ?iter_xO_value, Z.div_mul by lia. reflexivity.
Qed.

Lemma double_of_int64_exact (n : Z) :
  - 2 ^ 53 < n < 2 ^ 53 -> whole_value (double_of_int64 n) = Some n.
Proof.
  intros Hn. unfold double_of_int64, binary_normalize.
  destruct n as [|m|m].
  - reflexivity.
  - apply binary_round_small. lia.
  - apply binary_round_small. lia.
Qed.

End IEEEFacts.

(* ================================================================== *)
(** ** Facts about the reactor *)

Module ReactorFacts.
Import Chrono Asio Timer.

Lemma invoked_app (a b : list event) : invoked (a ++ b) = invoked a ++ invoked b.
Proof.
  induction a as [|e a IH]; [reflexivity|].
  destruct e; cbn [app invoked]; rewrite IH; reflexivity.
Qed.

Lemma called_app (a b : list event) : called (a ++ b) = called a ++ called b.
Proof.
  induction a as [|e a IH]; [reflexivity|].
  destruct e; cbn [app called]; rewrite IH; reflexivity.
Qed.

Lemma completed_app (a b : list event) :
  completed (a ++ b) = completed a ++ completed b.
Proof.
  induction a as [|e a IH]; [reflexivity|].
  destruct e; cbn [app completed]; rewrite IH; reflexivity.
Qed.

Lemma invocations_app (h : Action) (a b : list event) :
  invocations h (a ++ b) = (invocations h a + invocations h b)%nat.
Proof. unfold invocations. rewrite invoked_app. apply count_occ_app. Qed.

Lemma with_status_length (ec : error_code) (cs : list completion) :
  length (with_status ec cs) = length cs.
Proof. apply length_map. Qed.

(** Running a completion only writes to the trace. *)
Lemma invoke_completion_frame (c : completion) (ec : error_code) (w : world) :
  ctx (invoke_completion c ec w) = ctx w /\
  handle (invoke_completion c ec w) = handle w /\
  clock (invoke_completion c ec w) = clock w.
Proof. destruct c, ec; cbn; auto. Qed.

Lemma work_dispatch c ec rest w :
  ready (ctx w) = (c, ec) :: rest ->
  (work (dispatch c ec rest w) < work w)%nat.
Proof.
  intros Hr. unfold work, dispatch.
  destruct (invoke_completion_frame c ec
    (log (Completed c ec)
       {| ctx := {| stopped := stopped (ctx w); ready := rest |};
          handle := handle w; clock := clock w; trace := trace w |}))
    as (Hc & Hh & _).
  rewrite Hc, Hh, Hr. cbn. lia.
Qed.

Lemma work_elapse late w :
  waiters (handle w) <> [] -> ready (ctx w) = [] ->
  (work (elapse late w) < work w)%nat.
Proof.
  intros Hw Hr. unfold work, elapse. cbn. rewrite Hr, length_app, with_status_length.
  destruct (waiters (handle w)); [congruence|]. cbn. lia.
Qed.

Lemma work_intrude i w :
  waiters (handle w) <> [] -> ready (ctx w) = [] ->
  (work (intrude i w) < work w)%nat.
Proof.
  intros Hw Hr. destruct i; cbn [intrude].
  - apply work_elapse; assumption.
  - unfold work, cancel_ops, pass, log. cbn.
    rewrite Hr, length_app, with_status_length.
    destruct (waiters (handle w)); [congruence|]. cbn. lia.
  - unfold work, cancel_one_op, pass, log. cbn [handle waiters ctx ready].
    destruct (waiters (handle w)) as [|c cs]; [congruence|].
    cbn. rewrite Hr. cbn. lia.
Qed.

(** With fuel above the outstanding work the loop returns, and it returns
    with the reactor idle and stopped. *)
Lemma run_loop_returns (fuel : nat) : forall env w,
  (work w < fuel)%nat ->
  exists w', run_loop fuel env w = Some w' /\ idle w' /\ stopped (ctx w') = true.
Proof.
  induction fuel as [|fuel IH]; intros env w Hw; [lia|].
  cbn [run_loop].
  destruct (ready (ctx w)) as [|[c ec] rest] eqn:Hr.
  - destruct (waiters (handle w)) as [|c0 cs] eqn:Hws.
    + eexists. split; [reflexivity|]. unfold idle, mark_stopped. cbn. auto.
    + assert (Hne : waiters (handle w) <> []) by (rewrite Hws; discriminate).
      destruct env as [|i env'].
      * apply IH. pose proof (work_elapse 0 w Hne Hr). lia.
      * apply IH. pose proof (work_intrude i w Hne Hr). lia.
  - apply IH. pose proof (work_dispatch c ec rest w Hr). lia.
Qed.

(** [run] always returns. *)
Lemma run_returns (env : list intrusion) (w : world) :
  exists w', run env w = Some w'.
Proof.
  unfold run. destruct (stopped (ctx (log (Called p_run) w))).
  - eexists. reflexivity.
  - destruct (run_loop_returns (S (work (log (Called p_run) w))) env
                (log (Called p_run) w)) as (w' & Hw' & _); [lia|].
    exists w'. exact Hw'.
Qed.

(** The loop makes no call of the owning thread on the boost objects,
    and leaves the armed expiry alone. *)
Lemma run_loop_frame (fuel : nat) : forall env w w',
  run_loop fuel env w = Some w' ->
  called (trace w') = called (trace w) /\
  expiry (handle w') = expiry (handle w).
Proof.
  induction fuel as [|fuel IH]; intros env w w' H; [discriminate|].
  cbn [run_loop] in H.
  destruct (ready (ctx w)) as [|[c ec] rest] eqn:Hr.
  - destruct (waiters (handle w)) as [|c0 cs] eqn:Hws.
    + injection H as <-. cbn. auto.
    + destruct env as [|i env'].
      * apply IH in H. exact H.
      * apply IH in H. destruct H as [H1 H2]. rewrite H1, H2.
        destruct i; cbn [intrude]; [cbn; auto|cbn|].
        -- rewrite called_app. cbn. rewrite app_nil_r. auto.
        -- unfold cancel_one_op, pass. cbn [handle waiters]. rewrite Hws. cbn.
           rewrite called_app. cbn. rewrite app_nil_r. auto.
  - apply IH in H. destruct H as [H1 H2]. rewrite H1, H2.
    unfold dispatch. destruct c as [h]; destruct ec; cbn;
      rewrite ?called_app; cbn; rewrite ?app_nil_r; auto.
Qed.

End ReactorFacts.

(* ================================================================== *)
(** ** Asynchronous wait and cancellation *)

Module Waiting.
Import Chrono Asio Timer ReactorFacts.

(** The constructor leaves the object quiescent. *)
Lemma SteadyTimer_quiescent (now : time_point) : quiescent (SteadyTimer now).
Proof. unfold quiescent, idle. cbn. auto. Qed.

(** One [AsyncWait] from a quiescent object, in full. *)
Lemma AsyncWait_from_quiescent (s : state) (env : list intrusion) (ms : Z)
  (h : Action) :
  quiescent s ->
  exists s',
    AsyncWait env ms h s = Some s' /\
    quiescent s' /\
    _startTime s' = _startTime s /\ _stopTime s' = _stopTime s /\
    expiry (_timer s') = traits_add (clock (heap s)) (milliseconds ms) /\
    trace (heap s') =
      trace (heap s)
        ++ [Called (p_expires_after (milliseconds ms));
            Called (p_async_wait (Lambda h)); Called p_run]
        ++ reactor_events env h ++ [Called p_reset].
Proof.
  destruct s as [[[st rd] [ex ws] ck tr] t0 t1].
  unfold quiescent, idle, _ioContext. cbn. intros (-> & -> & ->).
  unfold AsyncWait, AsyncWait_arm, AsyncWait_register, run, _timer.
  destruct env as [|[late|dt|dt] env']; cbn -[milliseconds traits_add Z.max];
    eexists; (split; [reflexivity|]);
    cbn -[milliseconds traits_add Z.max];
    rewrite <- ?app_assoc; cbn -[milliseconds traits_add Z.max];
    repeat split; reflexivity.
Qed.

(** Every call of the interface keeps the object quiescent, whatever
    other threads do during an [AsyncWait]. *)
Lemma exec_quiescent (c : call) (s : state) :
  quiescent s ->
  exists o s', exec c s = Some (o, s') /\ quiescent s'.
Proof.
  intros Hq. destruct c; cbn [exec].
  - do 2 eexists. split; [reflexivity|exact Hq].
  - do 2 eexists. split; [reflexivity|exact Hq].
  - do 2 eexists. split; [reflexivity|exact Hq].
  - do 2 eexists. split; [reflexivity|exact Hq].
  - do 2 eexists. split; [reflexivity|exact Hq].
  - do 2 eexists. split; [reflexivity|exact Hq].
  - unfold ExpiresAt. destruct (ExpiresAt_expiry time) as [e|].
    + do 2 eexists. split; [reflexivity|].
      destruct Hq as (Hs & Hr & Hw). unfold quiescent, idle, _ioContext in *.
      cbn. rewrite Hs, Hr, Hw. cbn. auto.
    + do 2 eexists. split; [reflexivity|exact Hq].
  - do 2 eexists. split; [reflexivity|].
    destruct Hq as (Hs & Hr & Hw). unfold quiescent, idle, _ioContext in *.
    cbn. rewrite Hs, Hr, Hw. cbn. auto.
  - destruct (AsyncWait_from_quiescent s env ms handler Hq) as (s' & He & Hq' & _).
    rewrite He. do 2 eexists. split; [reflexivity|exact Hq'].
  - destruct Hq as (Hs & Hr & Hw). unfold quiescent, idle, _ioContext in *.
    unfold Cancel, cancel, cancel_ops. rewrite Hw. cbn.
    do 2 eexists. split; [reflexivity|]. cbn. rewrite Hs, Hr. auto.
  - destruct Hq as (Hs & Hr & Hw). unfold quiescent, idle, _ioContext in *.
    unfold CancelOne, cancel_one, cancel_one_op. rewrite Hw. cbn.
    do 2 eexists. split; [reflexivity|]. cbn. rewrite Hs, Hr, Hw. auto.
Qed.

(** [run] adds its own call to those of the owning thread and nothing
    else, and leaves the armed expiry alone. *)
Lemma run_frame (env : list intrusion) (w w' : world) :
  run env w = Some w' ->
  called (trace w') = called (trace w) ++ [p_run] /\
  expiry (handle w') = expiry (handle w).
Proof.
  unfold run. intros H.
  assert (Hlog : called (trace (log (Called p_run) w)) = called (trace w) ++ [p_run])
    by (cbn; rewrite called_app; reflexivity).
  destruct (stopped (ctx (log (Called p_run) w))).
  - injection H as <-. split; [exact Hlog|reflexivity].
  - apply run_loop_frame in H. destruct H as [H1 H2].
    rewrite H1, H2. split; [exact Hlog|reflexivity].
Qed.

(** From any state and whatever other threads do, [AsyncWait] returns,
    having armed, registered, run and reset in that order, and leaves the
    reactor not stopped. *)
Lemma AsyncWait_calls_in_order (env : list intrusion) (ms : Z) (h : Action)
  (s : state) :
  exists s',
    AsyncWait env ms h s = Some s' /\
    called (trace (heap s')) = called (trace (heap s)) ++ AsyncWait_calls ms h /\
    stopped (_ioContext s') = false.
Proof.
  unfold AsyncWait.
  destruct (run_returns env (heap (AsyncWait_register h (AsyncWait_arm ms s))))
    as (w3 & Hrun).
  rewrite Hrun. eexists. split; [reflexivity|].
  apply run_frame in Hrun. destruct Hrun as [Hc _].
  split; [|reflexivity].
  cbn -[milliseconds traits_add]. rewrite called_app, Hc.
  cbn -[milliseconds traits_add]. rewrite !called_app.
  cbn -[milliseconds traits_add]. rewrite <- !app_assoc. reflexivity.
Qed.

(** C1. For every duration and handler, [AsyncWait] on a quiescent timer
    returns nothing to its caller ([Void], never a status or an
    exception) whether the wait fired or was cancelled; the reactor runs
    exactly one completion, that of this wait; the handler is invoked
    exactly once when that completion carries no error and not at all
    when it carries the cancelled indicator, which it does when [Cancel]
    or [CancelOne] came in before the deadline elapsed; no other handler
    is invoked. *)
Theorem AsyncWait_invokes_once_unless_cancelled
  (s : state) (env : list intrusion) (ms : Z) (h : Action) :
  quiescent s ->
  exists s',
    exec (call_AsyncWait env ms h) s = Some (Void, s') /\
    completed (trace (heap s')) =
      completed (trace (heap s)) ++ [(Lambda h, indicator env)] /\
    invocations h (trace (heap s')) =
      (invocations h (trace (heap s))
       + match indicator env with success => 1 | operation_aborted => 0 end)%nat /\
    (forall h', h' <> h ->
       invocations h' (trace (heap s')) = invocations h' (trace (heap s))).
Proof.
  intros Hq.
  destruct (AsyncWait_from_quiescent s env ms h Hq) as (s' & He & _ & _ & _ & _ & Ht).
  exists s'. cbn [exec]. rewrite He. split; [reflexivity|].
  rewrite Ht. clear Ht He.
  assert (Hev : completed (reactor_events env h) = [(Lambda h, indicator env)] /\
                invoked (reactor_events env h) =
                  match indicator env with success => [h] | operation_aborted => [] end)
    by (destruct env as [|[late|dt|dt] env']; cbn; auto).
  destruct Hev as [Hc Hi].
  split; [|split].
  - rewrite !completed_app, Hc. cbn. rewrite ?app_nil_r. reflexivity.
  - rewrite !invocations_app. unfold invocations at 2 3 4. rewrite Hi.
    destruct (indicator env); cbn; [|lia].
    destruct (Nat.eq_dec h h); [lia|congruence].
  - intros h' Hne. rewrite !invocations_app.
    unfold invocations at 2 3 4. rewrite Hi.
    destruct (indicator env); cbn; [|lia].
    destruct (Nat.eq_dec h h'); [congruence|lia].
Qed.

Lemma AsyncWait_invokes_once_unless_cancelled_witness :
  quiescent (SteadyTimer 1000) /\
  exists s',
    exec (call_AsyncWait [ByCancel 0] 50 7%nat) (SteadyTimer 1000) = Some (Void, s') /\
    completed (trace (heap s')) = [(Lambda 7%nat, operation_aborted)] /\
    invocations 7%nat (trace (heap s')) = 0%nat.
Proof.
  split.
  - repeat split; reflexivity.
  - destruct (AsyncWait_invokes_once_unless_cancelled
                (SteadyTimer 1000) [ByCancel 0] 50 7%nat)
      as (s' & He & Hc & Hi & _).
    + repeat split; reflexivity.
    + exists s'. split; [exact He|]. split; [exact Hc|exact Hi].
Defined.

(** C4. [Cancel] with no wait pending returns 0.  [Cancel] with exactly
    one wait pending returns 1, and on the next pass of the reactor the
    completion of that wait is run with the cancelled indicator and no
    handler is invoked. *)
Theorem Cancel_returns_pending_count
  (s : state) (h : Action) (env : list intrusion) :
  (waiters (_timer s) = [] -> fst (Cancel s) = 0) /\
  (waiters (_timer s) = [Lambda h] ->
   ready (_ioContext s) = [] -> stopped (_ioContext s) = false ->
   fst (Cancel s) = 1 /\
   exists w',
     run env (heap (snd (Cancel s))) = Some w' /\
     completed (trace w') =
       completed (trace (heap s)) ++ [(Lambda h, operation_aborted)] /\
     invoked (trace w') = invoked (trace (heap s))).
Proof.
  destruct s as [[[st rd] [ex ws] ck tr] t0 t1].
  unfold _timer, _ioContext, Cancel, cancel, cancel_ops. cbn.
  split.
  - intros ->. reflexivity.
  - intros -> -> ->. split; [reflexivity|].
    unfold run. cbn. eexists. split; [reflexivity|]. cbn.
    rewrite <- ?app_assoc, !completed_app, !invoked_app. cbn.
    rewrite ?app_nil_r. split; reflexivity.
Qed.

Lemma Cancel_returns_pending_count_witness :
  fst (Cancel (SteadyTimer 1000)) = 0 /\
  fst (Cancel (AsyncWait_register 7%nat (AsyncWait_arm 50 (SteadyTimer 1000)))) = 1 /\
  exists w',
    run [] (heap (snd (Cancel (AsyncWait_register 7%nat
                                 (AsyncWait_arm 50 (SteadyTimer 1000))))))
      = Some w' /\
    invoked (trace w') = [].
Proof.
  split.
  - apply (Cancel_returns_pending_count (SteadyTimer 1000) 7%nat []). reflexivity.
  - destruct (Cancel_returns_pending_count
                (AsyncWait_register 7%nat (AsyncWait_arm 50 (SteadyTimer 1000)))
                7%nat []) as [_ Hone].
    destruct Hone as (H1 & w' & Hrun & _ & Hinv);
      [reflexivity|reflexivity|reflexivity|].
    split; [exact H1|]. exists w'. split; [exact Hrun|exact Hinv].
Defined.

End Waiting.

(* ================================================================== *)
(** ** The stopwatch *)

Module Stopwatch.
Import Chrono IEEE Asio DotNet Timer ChronoFacts IEEEFacts.

(** A 64-bit count of nanoseconds cast to milliseconds or seconds stays
    far below [2^53]. *)
Lemma cast_below_2_53 (d c : Z) :
  int64 d -> 1000000 <= c -> - 2 ^ 53 < Z.quot d c < 2 ^ 53.
Proof.
  unfold int64, int64_min, int64_max. intros Hd Hc.
  destruct (Z_le_gt_dec 0 d) as [Hpos|Hneg].
  - split.
    + pose proof (Z.quot_pos d c Hpos ltac:(lia)). lia.
    + apply Z.quot_lt_upper_bound; lia.
  - replace d with (- (- d)) by lia. rewrite Z.quot_opp_l by lia.
    split.
    + assert (- d ÷ c < 2 ^ 53) by (apply Z.quot_lt_upper_bound; lia). lia.
    + pose proof (Z.quot_pos (- d) c ltac:(lia) ltac:(lia)). lia.
Qed.

Lemma elapsed_double_exact (d c : Z) :
  int64 d -> 1000000 <= c ->
  whole_value (double_of_int64 (Z.quot d c)) = Some (Z.quot d c).
Proof.
  intros Hd Hc. apply double_of_int64_exact. apply cast_below_2_53; assumption.
Qed.

(** C3. For instants [t0 <= t1] whose difference a 64-bit count holds,
    [Start] at [t0] and [Stop] at [t1] make [GetElapsedMilliseconds]
    return the whole number [floor ((t1 - t0) / 10^6)], which is the
    difference truncated toward zero; [GetElapsedSeconds] returns
    [floor ((t1 - t0) / 10^9)] and [GetElapsedNanoseconds] returns
    [t1 - t0]. *)
Theorem elapsed_is_truncated_difference (s : state) (t0 t1 : time_point) :
  t0 <= t1 -> t1 - t0 <= int64_max ->
  let s' := Stop (at_instant t1 (Start (at_instant t0 s))) in
  whole_value (GetElapsedMilliseconds s') = Some ((t1 - t0) / ns_per_ms) /\
  (t1 - t0) / ns_per_ms = Z.quot (t1 - t0) ns_per_ms /\
  whole_value (GetElapsedSeconds s') = Some ((t1 - t0) / ns_per_s) /\
  (t1 - t0) / ns_per_s = Z.quot (t1 - t0) ns_per_s /\
  GetElapsedNanoseconds s' = t1 - t0.
Proof.
  intros Hle Hmax s'.
  assert (Hr : int64 (t1 - t0)) by (unfold int64, int64_min, int64_max in *; lia).
  assert (Hd : tp_diff (_stopTime s') (_startTime s') = t1 - t0)
    by (cbn; unfold tp_diff; apply wrap64_id; exact Hr).
  assert (Hms : (t1 - t0) / ns_per_ms = Z.quot (t1 - t0) ns_per_ms)
    by (symmetry; apply Z.quot_div_nonneg; unfold ns_per_ms; lia).
  assert (Hs : (t1 - t0) / ns_per_s = Z.quot (t1 - t0) ns_per_s)
    by (symmetry; apply Z.quot_div_nonneg; unfold ns_per_s; lia).
  unfold GetElapsedMilliseconds, GetElapsedSeconds, GetElapsedNanoseconds.
  unfold duration_cast_milliseconds, duration_cast_seconds, duration_cast_nanoseconds.
  rewrite Hd, Hms, Hs.
  repeat split.
  - apply elapsed_double_exact; [exact Hr|unfold ns_per_ms; lia].
  - apply elapsed_double_exact; [exact Hr|unfold ns_per_s; lia].
Qed.

Lemma elapsed_is_truncated_difference_witness :
  whole_value
    (GetElapsedMilliseconds
       (Stop (at_instant 3999999 (Start (at_instant 1500000 (SteadyTimer 0))))))
  = Some 2.
Proof.
  destruct (elapsed_is_truncated_difference (SteadyTimer 0) 1500000 3999999)
    as (Hms & _).
  - lia.
  - in_range.
  - exact Hms.
Defined.

(** C8. [Start] returns nothing, cannot fail, stores the current reading
    of the steady clock in [_startTime] and changes nothing else; [Stop]
    does the same with [_stopTime].  No other call of the interface
    changes [_startTime], and none but [Stop] changes [_stopTime]. *)
Theorem Start_Stop_frame (s : state) :
  (exec call_Start s = Some (Void, Start s) /\
   _startTime (Start s) = clock (heap s) /\
   _stopTime (Start s) = _stopTime s /\ heap (Start s) = heap s) /\
  (exec call_Stop s = Some (Void, Stop s) /\
   _stopTime (Stop s) = clock (heap s) /\
   _startTime (Stop s) = _startTime s /\ heap (Stop s) = heap s) /\
  (forall c o s', exec c s = Some (o, s') ->
     (c <> call_Start -> _startTime s' = _startTime s) /\
     (c <> call_Stop -> _stopTime s' = _stopTime s)).
Proof.
  split; [repeat split|]. split; [repeat split|].
  intros c o s' H. destruct c; cbn [exec] in H.
  - injection H as <- <-. split; [congruence|reflexivity].
  - injection H as <- <-. split; [reflexivity|congruence].
  - injection H as <- <-. auto.
  - injection H as <- <-. auto.
  - injection H as <- <-. auto.
  - injection H as <- <-. auto.
  - unfold ExpiresAt in H. destruct (ExpiresAt_expiry time);
      injection H as <- <-; auto.
  - injection H as <- <-. auto.
  - unfold AsyncWait in H.
    destruct (run env (heap (AsyncWait_register handler (AsyncWait_arm ms s))));
      [|discriminate].
    injection H as <- <-. auto.
  - unfold Cancel in H. destruct (cancel (heap s)). injection H as <- <-. auto.
  - unfold CancelOne in H. destruct (cancel_one (heap s)).
    injection H as <- <-. auto.
Qed.

Lemma Start_Stop_frame_witness :
  _startTime (Start (at_instant 42 (SteadyTimer 0))) = 42 /\
  forall o s',
    exec (call_AsyncWait [] 50 7%nat) (Start (at_instant 42 (SteadyTimer 0)))
      = Some (o, s') ->
    _startTime s' = 42 /\ _stopTime s' = 0.
Proof.
  destruct (Start_Stop_frame (at_instant 42 (SteadyTimer 0)))
    as ((_ & Hst & _) & _ & _).
  split; [exact Hst|].
  intros o s' H.
  destruct (Start_Stop_frame (Start (at_instant 42 (SteadyTimer 0))))
    as (_ & _ & Hfr).
  destruct (Hfr _ o s' H) as [H1 H2].
  split; [apply H1; discriminate|apply H2; discriminate].
Defined.

(** C9. Any sequence of elapsed-time queries, in any order and of any
    length, returns for each query the value determined by the two
    recorded instants alone, and leaves the state of the timer as it
    was. *)
Theorem queries_are_pure (qs : list call) (s : state) :
  forallb is_query qs = true ->
  exec_all qs s
  = Some (map (fun q => answer q (_startTime s) (_stopTime s)) qs, s).
Proof.
  induction qs as [|q qs IH]; intros Hq; [reflexivity|].
  cbn [forallb] in Hq. apply andb_true_iff in Hq. destruct Hq as [Hq Hqs].
  cbn [exec_all map]. destruct q; try discriminate Hq;
    cbn [exec]; rewrite (IH Hqs); reflexivity.
Qed.

Lemma queries_are_pure_witness :
  let s := Stop (at_instant 2500000000 (Start (at_instant 0 (SteadyTimer 0)))) in
  exists os,
    exec_all [call_GetElapsedMilliseconds; call_GetElapsedSeconds;
              call_GetElapsedMilliseconds; call_GetElapsedNanoseconds] s
    = Some (os, s) /\
    nth_error os 0 = nth_error os 2.
Proof.
  intros s. eexists. split.
  - apply (queries_are_pure
             [call_GetElapsedMilliseconds; call_GetElapsedSeconds;
              call_GetElapsedMilliseconds; call_GetElapsedNanoseconds] s).
    reflexivity.
  - reflexivity.
Defined.

(** C10. Whatever the two recorded instants, the [double] returned by
    [GetElapsedSeconds] and by [GetElapsedMilliseconds] denotes a whole
    number: the truncated count of the unit, converted without loss. *)
Theorem elapsed_double_is_whole (s : state) :
  whole_value (GetElapsedSeconds s)
  = Some (duration_cast_seconds (tp_diff (_stopTime s) (_startTime s))) /\
  whole_value (GetElapsedMilliseconds s)
  = Some (duration_cast_milliseconds (tp_diff (_stopTime s) (_startTime s))) /\
  is_whole (GetElapsedSeconds s) = true /\
  is_whole (GetElapsedMilliseconds s) = true.
Proof.
  assert (Hs : whole_value (GetElapsedSeconds s)
               = Some (duration_cast_seconds (tp_diff (_stopTime s) (_startTime s))))
    by (apply elapsed_double_exact; [apply wrap64_range|unfold ns_per_s; lia]).
  assert (Hms : whole_value (GetElapsedMilliseconds s)
               = Some (duration_cast_milliseconds (tp_diff (_stopTime s) (_startTime s))))
    by (apply elapsed_double_exact; [apply wrap64_range|unfold ns_per_ms; lia]).
  unfold is_whole. rewrite Hs, Hms. auto.
Qed.

End Stopwatch.

(* ================================================================== *)
(** ** Arming the deadline *)

Module Deadline.
Import Chrono IEEE Asio DotNet Timer ChronoFacts ReactorFacts Waiting.

(** [ExpiresFromNow] and the first statement of [AsyncWait] store the
    same expiry, the clock plus the duration under the saturating
    addition, and cancel whatever was pending. *)
Lemma relative_expiry (s : state) (ms : Z) :
  expiry (_timer (ExpiresFromNow ms s))
  = traits_add (clock (heap s)) (milliseconds ms) /\
  expiry (_timer (AsyncWait_arm ms s))
  = traits_add (clock (heap s)) (milliseconds ms) /\
  waiters (_timer (ExpiresFromNow ms s)) = [] /\
  waiters (_timer (AsyncWait_arm ms s)) = [].
Proof. repeat split; reflexivity. Qed.

Lemma relative_expiry_exact (now ms : Z) :
  int32 ms -> int64 now -> int64 (now + ms * ns_per_ms) ->
  traits_add now (milliseconds ms) = relative_deadline now ms.
Proof.
  intros Hms Hnow Hsum. rewrite milliseconds_exact by exact Hms.
  unfold relative_deadline. change 1000000 with ns_per_ms.
  apply traits_add_exact; [exact Hnow| |exact Hsum].
  unfold int32, int32_min, int32_max in Hms.
  unfold int64, int64_min, int64_max, ns_per_ms. lia.
Qed.

(** The [time_t] that [ExpiresAt] hands to [from_time_t] is the file
    time, in ticks of 100 ns since 1601; it is never the seconds since
    1970 of the timestamp. *)
Lemma ExpiresAt_time_t_is_file_time (d : DateTime) (ft : Z) :
  ToFileTime d = Some ft -> ft <> unix_seconds d.
Proof.
  unfold ToFileTime, unix_seconds, system_clock_instant,
    FileTimeOffset, UnixEpochTicks, TicksPerSecond.
  destruct (Ticks d - 504911232000000000 <? 0) eqn:Hneg; [discriminate|].
  apply Z.ltb_ge in Hneg. intros H. injection H as <-.
  intros Heq. Z.div_mod_to_equations. lia.
Qed.

(** What [ExpiresAt] stores, whatever was armed before. *)
Lemma ExpiresAt_stores (d : DateTime) (s s' : state) :
  ExpiresAt d s = Some s' ->
  exists ft, ToFileTime d = Some ft /\
    expiry (_timer s') = from_time_t ft /\ waiters (_timer s') = [].
Proof.
  unfold ExpiresAt, ExpiresAt_expiry.
  destruct (ToFileTime d) as [ft|]; [|discriminate].
  intros H. injection H as <-. exists ft. repeat split; reflexivity.
Qed.

(** C5. [ExpiresAt] at 2025-01-01T00:00:00Z: the value cast to [time_t]
    is the file time 133801632000000000 where the timestamp is
    1735689600 seconds after 1970, and the expiry armed is the
    [system_clock] count 185357551383085056 where the timestamp is the
    count 17356896000000000. *)
Theorem ExpiresAt_new_year_2025 (s : state) :
  ToFileTime new_year_2025 = Some 133801632000000000 /\
  unix_seconds new_year_2025 = 1735689600 /\
  system_clock_instant new_year_2025 = 17356896000000000 /\
  exists s',
    exec (call_ExpiresAt new_year_2025) s = Some (Void, s') /\
    expiry (_timer s') = 185357551383085056 /\
    expiry (_timer s') <> system_clock_instant new_year_2025.
Proof.
  split; [reflexivity|]. split; [reflexivity|]. split; [reflexivity|].
  eexists. split; [reflexivity|]. split; [reflexivity|].
  cbn. discriminate.
Qed.

(** C6. For every [int] duration, zero and negative ones included,
    [ExpiresFromNow] returns nothing and raises nothing, and arms the
    handle at the clock reading of the call plus that many milliseconds,
    whatever was armed before, cancelling the waits that were pending;
    the reading and the sum are instants a 64-bit count holds. *)
Theorem ExpiresFromNow_arms_relative (s : state) (ms : Z) :
  int32 ms -> int64 (clock (heap s)) ->
  int64 (clock (heap s) + ms * ns_per_ms) ->
  exec (call_ExpiresFromNow ms) s = Some (Void, ExpiresFromNow ms s) /\
  expiry (_timer (ExpiresFromNow ms s)) = clock (heap s) + ms * ns_per_ms /\
  waiters (_timer (ExpiresFromNow ms s)) = [].
Proof.
  intros Hms Hnow Hsum. split; [reflexivity|]. split; [|reflexivity].
  destruct (relative_expiry s ms) as (He & _). rewrite He.
  apply relative_expiry_exact; assumption.
Qed.

Lemma ExpiresFromNow_arms_relative_witness :
  expiry (_timer (ExpiresFromNow (-5) (at_instant 1000 (SteadyTimer 0))))
  = -4999000 /\
  expiry (_timer (ExpiresFromNow 0 (at_instant 1000 (SteadyTimer 0)))) = 1000.
Proof.
  split.
  - destruct (ExpiresFromNow_arms_relative (at_instant 1000 (SteadyTimer 0)) (-5))
      as (_ & He & _).
    + in_range.
    + in_range.
    + in_range.
    + exact He.
  - destruct (ExpiresFromNow_arms_relative (at_instant 1000 (SteadyTimer 0)) 0)
      as (_ & He & _).
    + in_range.
    + in_range.
    + in_range.
    + exact He.
Defined.

(** C7. For every duration, the first statement of [AsyncWait] leaves the
    deadline handle and the reactor exactly as [ExpiresFromNow] at the
    same instant does; the expiry is still that one when [AsyncWait]
    returns; and it is the call instant plus the duration in
    milliseconds when a 64-bit count holds that instant. *)
Theorem AsyncWait_arms_like_ExpiresFromNow (s : state) (ms : Z) :
  _timer (AsyncWait_arm ms s) = _timer (ExpiresFromNow ms s) /\
  _ioContext (AsyncWait_arm ms s) = _ioContext (ExpiresFromNow ms s) /\
  (forall env h s',
     AsyncWait env ms h s = Some s' ->
     expiry (_timer s') = expiry (_timer (ExpiresFromNow ms s))) /\
  (int32 ms -> int64 (clock (heap s)) ->
   int64 (clock (heap s) + ms * ns_per_ms) ->
   expiry (_timer (AsyncWait_arm ms s)) = relative_deadline (clock (heap s)) ms /\
   expiry (_timer (ExpiresFromNow ms s)) = relative_deadline (clock (heap s)) ms).
Proof.
  split; [reflexivity|]. split; [reflexivity|]. split.
  - intros env h s' H. unfold AsyncWait in H.
    destruct (run env (heap (AsyncWait_register h (AsyncWait_arm ms s))))
      as [w3|] eqn:Hrun; [|discriminate].
    injection H as <-. apply run_frame in Hrun. destruct Hrun as [_ He].
    unfold _timer. cbn [heap with_heap reset handle expiry]. exact He.
  - intros Hms Hnow Hsum.
    destruct (relative_expiry s ms) as (H1 & H2 & _). rewrite H1, H2.
    split; apply relative_expiry_exact; assumption.
Qed.

Lemma AsyncWait_arms_like_ExpiresFromNow_witness :
  expiry (_timer (AsyncWait_arm 50 (at_instant 1000 (SteadyTimer 0)))) = 50001000 /\
  exists s',
    AsyncWait [] 50 7%nat (at_instant 1000 (SteadyTimer 0)) = Some s' /\
    expiry (_timer s')
    = expiry (_timer (ExpiresFromNow 50 (at_instant 1000 (SteadyTimer 0)))).
Proof.
  destruct (AsyncWait_arms_like_ExpiresFromNow (at_instant 1000 (SteadyTimer 0)) 50)
    as (_ & _ & Hret & Hexact).
  split.
  - destruct Hexact as [Ha _].
    + in_range.
    + in_range.
    + in_range.
    + exact Ha.
  - eexists. split; [reflexivity|]. apply (Hret [] 7%nat). reflexivity.
Defined.

End Deadline.

(* ================================================================== *)
(** ** Runs on concrete inputs *)

Module Examples.
Import Chrono IEEE Asio DotNet Timer.

(** A wait of 50 ms that nobody cancels: the clock reaches the expiry and
    the handler runs between [run] and [reset]. *)
Example AsyncWait_fires :
  option_map (fun s => (clock (heap s), trace (heap s)))
    (AsyncWait [] 50 7%nat (SteadyTimer 1000))
  = Some (50001000,
          [Called (p_expires_after 50000000); Called (p_async_wait (Lambda 7%nat));
           Called p_run; Completed (Lambda 7%nat) success; Invoked 7%nat;
           Called p_reset]).
Proof. reflexivity. Qed.

(** The same wait, cancelled by another thread while [run] is blocked. *)
Example AsyncWait_cancelled :
  option_map (fun s => (clock (heap s), trace (heap s)))
    (AsyncWait [ByCancel 0] 50 7%nat (SteadyTimer 1000))
  = Some (1000,
          [Called (p_expires_after 50000000); Called (p_async_wait (Lambda 7%nat));
           Called p_run; Intruded (p_cancel 1);
           Completed (Lambda 7%nat) operation_aborted; Called p_reset]).
Proof. reflexivity. Qed.

(** [AsyncWait(50, h1)] then [AsyncWait(30, h2)], then a [Cancel] that
    finds nothing pending. *)
Example two_waits_then_Cancel :
  option_map (fun r => (fst r, invoked (trace (heap (snd r)))))
    (exec_all [call_AsyncWait [] 50 1%nat; call_AsyncWait [] 30 2%nat; call_Cancel]
       (SteadyTimer 0))
  = Some ([Void; Void; ReturnedInt 0], [1%nat; 2%nat]).
Proof. reflexivity. Qed.

(** Without [reset] a second [run] returns at once and the wait stays
    pending. *)
Example run_twice_without_reset :
  match run [] (async_wait (Lambda 1%nat) (fresh 0)) with
  | Some w1 =>
      option_map (fun w2 => (waiters (handle w2), invoked (trace w2)))
        (run [] (async_wait (Lambda 2%nat) w1))
  | None => None
  end
  = Some ([Lambda 2%nat], [1%nat]).
Proof. reflexivity. Qed.

(** 2.5 ms elapsed are reported as 2, and a stop before the start as a
    negative count truncated toward zero. *)
Example elapsed_two_and_a_half_ms :
  whole_value (GetElapsedMilliseconds
                 (Stop (at_instant 2500000 (Start (at_instant 0 (SteadyTimer 0))))))
  = Some 2
  /\ whole_value (GetElapsedMilliseconds
                    (Start (at_instant 2500000 (Stop (at_instant 0 (SteadyTimer 0))))))
     = Some (-2).
Proof. split; reflexivity. Qed.

(** The conversion to [double] does round above [2^53]; the result is
    still a whole number. *)
Example double_of_int64_rounds :
  whole_value (double_of_int64 (2 ^ 53 + 1)) = Some (2 ^ 53).
Proof. reflexivity. Qed.

(** The relative expiry saturates at the top of the 64-bit range. *)
Example traits_add_saturates :
  traits_add (int64_max - 5) (milliseconds 1) = int64_max.
Proof. reflexivity. Qed.

(** A date before 1601 makes [ToFileTime] throw; the timer is left as it
    was. *)
Example ExpiresAt_before_1601 :
  exec (call_ExpiresAt {| Ticks := 0 |}) (SteadyTimer 0)
  = Some (Thrown, SteadyTimer 0).
Proof. reflexivity. Qed.

(** A handler that throws leaves the reactor stopped: the next
    [AsyncWait] runs nothing and leaves its wait for [Cancel] to find. *)
Example handler_throws_then_Cancel :
  option_map (fun r => (fst r, invoked (trace (heap (snd r)))))
    (Throwing.exec_all_ex (fun h => Nat.eqb h 9)
       [call_AsyncWait [] 50 9%nat; call_AsyncWait [] 30 2%nat; call_Cancel]
       (SteadyTimer 0))
  = Some ([Thrown; Void; ReturnedInt 1], [9%nat]).
Proof. reflexivity. Qed.

(** A wait resolved 61169 ns late. *)
Example AsyncWait_resolved_late :
  option_map (fun s => clock (heap s))
    (AsyncWait [Elapse 61169] 25 7%nat (SteadyTimer 0))
  = Some 25061169.
Proof. reflexivity. Qed.

End Examples.

(* ================================================================== *)
(** ** Waits left over from before *)

Module Draining.
Import Chrono Asio Timer Traces ReactorFacts Waiting.

Lemma fired_app (a b : list (completion * error_code)) :
  fired (a ++ b) = fired a ++ fired b.
Proof. unfold fired. apply flat_map_app. Qed.

Lemma fired_aborted (cs : list completion) :
  fired (with_status operation_aborted cs) = [].
Proof.
  induction cs as [|[h] cs IH]; [reflexivity|]. cbn. exact IH.
Qed.

Lemma dispatch_events_cons (h : Action) (ec : error_code)
  (q : list (completion * error_code)) :
  dispatch_events ((Lambda h, ec) :: q)
  = Completed (Lambda h) ec
      :: match ec with success => [Invoked h] | operation_aborted => [] end
      ++ dispatch_events q.
Proof. destruct ec; reflexivity. Qed.

Lemma fired_cons (h : Action) (ec : error_code)
  (q : list (completion * error_code)) :
  fired ((Lambda h, ec) :: q)
  = match ec with success => [h] | operation_aborted => [] end ++ fired q.
Proof. destruct ec; reflexivity. Qed.

Lemma completed_dispatch_events (q : list (completion * error_code)) :
  completed (dispatch_events q) = q.
Proof.
  induction q as [|[[h] ec] q IH]; [reflexivity|].
  rewrite dispatch_events_cons. destruct ec; cbn [app completed];
    rewrite IH; reflexivity.
Qed.

Lemma invoked_dispatch_events (q : list (completion * error_code)) :
  invoked (dispatch_events q) = fired q.
Proof.
  induction q as [|[[h] ec] q IH]; [reflexivity|].
  rewrite dispatch_events_cons, fired_cons. destruct ec; cbn [app invoked];
    rewrite IH; reflexivity.
Qed.

Lemma called_dispatch_events (q : list (completion * error_code)) :
  called (dispatch_events q) = [].
Proof.
  induction q as [|[[h] ec] q IH]; [reflexivity|].
  rewrite dispatch_events_cons. destruct ec; cbn [app called]; exact IH.
Qed.

(** The loop first runs what is ready, oldest first, one completion per
    turn. *)
Lemma run_loop_drain (q : list (completion * error_code)) :
  forall fuel env w,
  ready (ctx w) = q ->
  run_loop (length q + fuel) env w
  = run_loop fuel env
      {| ctx := {| stopped := stopped (ctx w); ready := [] |};
         handle := handle w; clock := clock w;
         trace := trace w ++ dispatch_events q |}.
Proof.
  induction q as [|[c ec] q IH]; intros fuel env w Hq.
  - destruct w as [[st rd] hd ck tr]. cbn in *. subst rd.
    rewrite app_nil_r. reflexivity.
  - cbn [length Nat.add run_loop]. rewrite Hq.
    rewrite (IH fuel env (dispatch c ec q w)).
    + destruct c as [h]. rewrite dispatch_events_cons.
      destruct ec; cbn; rewrite <- !app_assoc; reflexivity.
    + destruct c as [h]; destruct ec; reflexivity.
Qed.

(** [run] with one wait pending and a queue of older completions: the
    queue is run first, then the wait is resolved as [env] says, at the
    clock reading [env] gives. *)
Lemma run_with_one_pending (q : list (completion * error_code)) (h : Action)
  (ex ck : time_point) (tr : list event) (env : list intrusion) :
  run env {| ctx := {| stopped := false; ready := q |};
             handle := {| expiry := ex; waiters := [Lambda h] |};
             clock := ck; trace := tr |}
  = Some {| ctx := {| stopped := true; ready := [] |};
            handle := {| expiry := ex; waiters := [] |};
            clock := resolved_at env ck ex;
            trace := tr ++ [Called p_run] ++ dispatch_events q
                        ++ reactor_events env h |}.
Proof.
  unfold run, log. cbn [ctx stopped trace handle clock].
  unfold work. cbn [handle waiters ctx ready length].
  replace (S (2 * 1 + length q)) with (length q + 3)%nat by lia.
  rewrite run_loop_drain by reflexivity.
  destruct env as [|[late|dt|dt] env']; cbn -[Z.max Z.add Z.of_N];
    unfold mark_stopped, log, dispatch, invoke_completion, cancel_ops,
      cancel_one_op, pass;
    cbn -[Z.max Z.add Z.of_N]; rewrite <- ?app_assoc, ?Z.add_0_r; reflexivity.
Qed.

(** [AsyncWait] on a reactor that is not stopped, whatever is ready or
    pending on it. *)
Lemma AsyncWait_from_running (s : state) (env : list intrusion) (ms : Z)
  (h : Action) :
  stopped (_ioContext s) = false ->
  exists s',
    AsyncWait env ms h s = Some s' /\
    quiescent s' /\
    _startTime s' = _startTime s /\ _stopTime s' = _stopTime s /\
    expiry (_timer s') = traits_add (clock (heap s)) (milliseconds ms) /\
    clock (heap s') = resolved_at env (clock (heap s)) (expiry (_timer s')) /\
    trace (heap s') =
      trace (heap s)
        ++ [Called (p_expires_after (milliseconds ms));
            Called (p_async_wait (Lambda h)); Called p_run]
        ++ dispatch_events
             (ready (_ioContext s)
                ++ with_status operation_aborted (waiters (_timer s)))
        ++ reactor_events env h ++ [Called p_reset].
Proof.
  destruct s as [[[st rd] [ex ws] ck tr] t0 t1].
  unfold _ioContext, _timer. cbn [heap ctx stopped handle]. intros ->.
  unfold AsyncWait, AsyncWait_arm, AsyncWait_register.
  unfold expires_after, set_expiry, async_wait, cancel_ops, log, with_heap.
  cbn [heap ctx handle clock trace stopped ready expiry waiters snd app].
  rewrite run_with_one_pending.
  eexists. split; [reflexivity|].
  unfold quiescent, idle, _ioContext, reset, log.
  cbn [heap ctx handle clock trace stopped ready expiry waiters
       _startTime _stopTime].
  repeat split. rewrite <- !app_assoc. reflexivity.
Qed.

(** X3. [AsyncWait] on a reactor that is not stopped first disposes of
    what was left over: the completions already queued are run in
    order, the waits still pending are aborted by the re-arming and
    their handlers are not invoked; then the new wait is resolved, and
    the timer is left quiescent. *)
Theorem AsyncWait_aborts_older_waits (s : state) (env : list intrusion)
  (ms : Z) (h : Action) :
  stopped (_ioContext s) = false ->
  exists s',
    AsyncWait env ms h s = Some s' /\
    quiescent s' /\
    completed (trace (heap s')) =
      completed (trace (heap s))
        ++ ready (_ioContext s)
        ++ with_status operation_aborted (waiters (_timer s))
        ++ [(Lambda h, indicator env)] /\
    invoked (trace (heap s')) =
      invoked (trace (heap s))
        ++ fired (ready (_ioContext s))
        ++ fired [(Lambda h, indicator env)].
Proof.
  intros Hs.
  destruct (AsyncWait_from_running s env ms h Hs)
    as (s' & He & Hq & _ & _ & _ & _ & Ht).
  exists s'. split; [exact He|]. split; [exact Hq|].
  rewrite Ht. clear Ht He Hq.
  assert (Hev : completed (reactor_events env h) = [(Lambda h, indicator env)] /\
                invoked (reactor_events env h) = fired [(Lambda h, indicator env)])
    by (destruct env as [|[late|dt|dt] env']; cbn; auto).
  destruct Hev as [Hc Hi].
  rewrite !completed_app, !invoked_app, completed_dispatch_events,
    invoked_dispatch_events, Hc, Hi, fired_app, fired_aborted.
  cbn [completed invoked app]. rewrite ?app_nil_r, <- ?app_assoc.
  split; reflexivity.
Qed.

Lemma AsyncWait_aborts_older_waits_witness :
  exists s',
    AsyncWait [] 30 2%nat
      (AsyncWait_register 1%nat (AsyncWait_arm 50 (SteadyTimer 0))) = Some s' /\
    completed (trace (heap s'))
    = [(Lambda 1%nat, operation_aborted); (Lambda 2%nat, success)] /\
    invoked (trace (heap s')) = [2%nat].
Proof.
  destruct (AsyncWait_aborts_older_waits
              (AsyncWait_register 1%nat (AsyncWait_arm 50 (SteadyTimer 0)))
              [] 30 2%nat) as (s' & He & _ & Hc & Hi).
  - reflexivity.
  - exists s'. split; [exact He|]. split; [exact Hc|exact Hi].
Defined.

End Draining.

(* ================================================================== *)
(** ** More on the stopwatch readings *)

Module Readings.
Import Chrono IEEE Asio Timer Traces ChronoFacts IEEEFacts Stopwatch.

(** X9. When [Stop] was recorded at [t1] and [Start] later, at [t0], the
    readings are negative and rounded toward zero, not down: they are
    the readings of the ordered pair with the sign changed. *)
Theorem elapsed_of_reversed_pair (s : state) (t0 t1 : time_point) :
  t1 <= t0 -> t0 - t1 <= int64_max ->
  let s' := Start (at_instant t0 (Stop (at_instant t1 s))) in
  whole_value (GetElapsedMilliseconds s') = Some (- ((t0 - t1) / ns_per_ms)) /\
  whole_value (GetElapsedSeconds s') = Some (- ((t0 - t1) / ns_per_s)) /\
  GetElapsedNanoseconds s' = - (t0 - t1).
Proof.
  intros Hle Hmax s'.
  assert (Hr : int64 (t1 - t0)) by (unfold int64, int64_min, int64_max in *; lia).
  assert (Hd : tp_diff (_stopTime s') (_startTime s') = - (t0 - t1))
    by (cbn; unfold tp_diff; rewrite wrap64_id by exact Hr; lia).
  assert (Hr' : int64 (- (t0 - t1))) by (replace (- (t0 - t1)) with (t1 - t0) by lia; exact Hr).
  unfold GetElapsedMilliseconds, GetElapsedSeconds, GetElapsedNanoseconds.
  unfold duration_cast_milliseconds, duration_cast_seconds, duration_cast_nanoseconds.
  rewrite Hd.
  rewrite <- (Z.quot_div_nonneg (t0 - t1) ns_per_ms) by (unfold ns_per_ms; lia).
  rewrite <- (Z.quot_div_nonneg (t0 - t1) ns_per_s) by (unfold ns_per_s; lia).
  rewrite <- !Z.quot_opp_l by (unfold ns_per_ms, ns_per_s; lia).
  repeat split.
  - apply elapsed_double_exact; [exact Hr'|unfold ns_per_ms; lia].
  - apply elapsed_double_exact; [exact Hr'|unfold ns_per_s; lia].
Qed.

Lemma elapsed_of_reversed_pair_witness :
  whole_value
    (GetElapsedMilliseconds
       (Start (at_instant 2500000 (Stop (at_instant 0 (SteadyTimer 0))))))
  = Some (-2).
Proof.
  destruct (elapsed_of_reversed_pair (SteadyTimer 0) 2500000 0) as (Hms & _).
  - lia.
  - in_range.
  - exact Hms.
Defined.

(** X10. Whatever the two recorded instants, the three readings agree: the
    milliseconds are the nanoseconds divided by 10^6 and the seconds are
    the milliseconds divided by 1000, each division truncating toward
    zero. *)
Theorem readings_agree (s : state) :
  exists ms sec,
    whole_value (GetElapsedMilliseconds s) = Some ms /\
    whole_value (GetElapsedSeconds s) = Some sec /\
    ms = Z.quot (GetElapsedNanoseconds s) 1000000 /\
    sec = Z.quot ms 1000 /\
    int64 (GetElapsedNanoseconds s).
Proof.
  exists (Z.quot (GetElapsedNanoseconds s) 1000000),
         (Z.quot (GetElapsedNanoseconds s) 1000000000).
  unfold GetElapsedNanoseconds, duration_cast_nanoseconds.
  split; [|split; [|split; [reflexivity|split]]].
  - apply elapsed_double_exact; [apply wrap64_range|lia].
  - apply elapsed_double_exact; [apply wrap64_range|lia].
  - rewrite Z.quot_quot by lia. reflexivity.
  - apply wrap64_range.
Qed.

(** X11. With [Start] recorded at [t0], a [Stop] recorded later never
    gives a smaller reading, in any of the three units. *)
Theorem later_stop_reads_no_less (s : state) (t0 t1 t2 : time_point) :
  t1 <= t2 -> int64 (t1 - t0) -> int64 (t2 - t0) ->
  let s1 := Stop (at_instant t1 (Start (at_instant t0 s))) in
  let s2 := Stop (at_instant t2 s1) in
  exists m1 m2 c1 c2,
    whole_value (GetElapsedMilliseconds s1) = Some m1 /\
    whole_value (GetElapsedMilliseconds s2) = Some m2 /\ m1 <= m2 /\
    whole_value (GetElapsedSeconds s1) = Some c1 /\
    whole_value (GetElapsedSeconds s2) = Some c2 /\ c1 <= c2 /\
    GetElapsedNanoseconds s1 <= GetElapsedNanoseconds s2.
Proof.
  intros Hle H1 H2 s1 s2.
  assert (Hd1 : tp_diff (_stopTime s1) (_startTime s1) = t1 - t0)
    by (cbn; unfold tp_diff; apply wrap64_id; exact H1).
  assert (Hd2 : tp_diff (_stopTime s2) (_startTime s2) = t2 - t0)
    by (cbn; unfold tp_diff; apply wrap64_id; exact H2).
  exists (Z.quot (t1 - t0) ns_per_ms), (Z.quot (t2 - t0) ns_per_ms),
         (Z.quot (t1 - t0) ns_per_s), (Z.quot (t2 - t0) ns_per_s).
  unfold GetElapsedMilliseconds, GetElapsedSeconds, GetElapsedNanoseconds.
  unfold duration_cast_milliseconds, duration_cast_seconds, duration_cast_nanoseconds.
  rewrite Hd1, Hd2.
  repeat split.
  - apply elapsed_double_exact; [exact H1|unfold ns_per_ms; lia].
  - apply elapsed_double_exact; [exact H2|unfold ns_per_ms; lia].
  - apply Z.quot_le_mono; [unfold ns_per_ms; lia|lia].
  - apply elapsed_double_exact; [exact H1|unfold ns_per_s; lia].
  - apply elapsed_double_exact; [exact H2|unfold ns_per_s; lia].
  - apply Z.quot_le_mono; [unfold ns_per_s; lia|lia].
  - lia.
Qed.

Lemma later_stop_reads_no_less_witness :
  exists m1 m2,
    whole_value
      (GetElapsedMilliseconds
         (Stop (at_instant 1999999 (Start (at_instant 0 (SteadyTimer 0))))))
    = Some m1 /\
    whole_value
      (GetElapsedMilliseconds
         (Stop (at_instant 2000000
                  (Stop (at_instant 1999999 (Start (at_instant 0 (SteadyTimer 0))))))))
    = Some m2 /\ m1 <= m2.
Proof.
  destruct (later_stop_reads_no_less (SteadyTimer 0) 0 1999999 2000000)
    as (m1 & m2 & _ & _ & Ha & Hb & Hc & _); [lia|in_range|in_range|].
  exists m1, m2. split; [exact Ha|]. split; [exact Hb|exact Hc].
Defined.

End Readings.

(* ================================================================== *)
(** ** More on arming *)

Module Arming.
Import Chrono IEEE Asio DotNet Timer Traces ChronoFacts ReactorFacts Deadline.

(** The saturating addition is addition cut to the 64-bit range. *)
Lemma traits_add_clamps (t d : Z) :
  int64 t -> int64 d -> traits_add t d = clamp64 (t + d).
Proof.
  unfold traits_add, tp_diff, tp_plus, clamp64. intros Ht Hd.
  assert (Hmax : int64_max = 2 ^ 63 - 1) by reflexivity.
  assert (Hmin : int64_min = - 2 ^ 63) by reflexivity.
  unfold int64 in *. rewrite Hmax, Hmin in *.
  destruct (0 <=? t) eqn:Hs.
  - apply Z.leb_le in Hs.
    rewrite (wrap64_id (2 ^ 63 - 1 - t)) by (unfold int64; rewrite Hmax, Hmin; lia).
    destruct (2 ^ 63 - 1 - t <? d) eqn:Hc.
    + apply Z.ltb_lt in Hc. lia.
    + apply Z.ltb_ge in Hc.
      rewrite wrap64_id by (unfold int64; rewrite Hmax, Hmin; lia). lia.
  - apply Z.leb_gt in Hs.
    rewrite (wrap64_id (t - - 2 ^ 63)) by (unfold int64; rewrite Hmax, Hmin; lia).
    rewrite (wrap64_id (- (t - - 2 ^ 63))) by (unfold int64; rewrite Hmax, Hmin; lia).
    destruct (d <? - (t - - 2 ^ 63)) eqn:Hc.
    + apply Z.ltb_lt in Hc. lia.
    + apply Z.ltb_ge in Hc.
      rewrite wrap64_id by (unfold int64; rewrite Hmax, Hmin; lia). lia.
Qed.

(** X7. Whatever the clock reads, [ExpiresFromNow] and [AsyncWait] arm
    the handle at the call instant plus the duration, cut to the range
    of the 64-bit count: the expiry never wraps around, so it is never
    before the call instant for a duration that is not negative and
    never after it for one that is not positive. *)
Theorem relative_expiry_never_wraps (s : state) (ms : Z) :
  int32 ms -> int64 (clock (heap s)) ->
  expiry (_timer (ExpiresFromNow ms s)) = clamp64 (clock (heap s) + ms * ns_per_ms) /\
  expiry (_timer (AsyncWait_arm ms s)) = clamp64 (clock (heap s) + ms * ns_per_ms) /\
  int64 (expiry (_timer (ExpiresFromNow ms s))) /\
  (0 <= ms -> clock (heap s) <= expiry (_timer (ExpiresFromNow ms s))) /\
  (ms <= 0 -> expiry (_timer (ExpiresFromNow ms s)) <= clock (heap s)).
Proof.
  intros Hms Hnow.
  destruct (relative_expiry s ms) as (H1 & H2 & _). rewrite H1, H2.
  rewrite milliseconds_exact by exact Hms.
  assert (Hd : int64 (ms * ns_per_ms))
    by (unfold int32, int32_min, int32_max in Hms;
        unfold int64, int64_min, int64_max, ns_per_ms; lia).
  rewrite traits_add_clamps by assumption.
  unfold clamp64, int64, int64_min, int64_max, ns_per_ms in *.
  repeat split; lia.
Qed.

Lemma relative_expiry_never_wraps_witness :
  expiry (_timer (ExpiresFromNow 1 (at_instant (int64_max - 5) (SteadyTimer 0))))
  = int64_max.
Proof.
  destruct (relative_expiry_never_wraps
              (at_instant (int64_max - 5) (SteadyTimer 0)) 1) as (He & _).
  - in_range.
  - in_range.
  - exact He.
Defined.

End Arming.

(* ================================================================== *)
(** ** Construction, use and disposal *)

Module Disposal.
Import Chrono IEEE Asio DotNet Timer Traces Lifetime ReactorFacts Waiting.

(** While both pointers are set, a call on the object is the call on the
    state the methods see. *)
Lemma invoke_live (c : call) (o : object) (s : state) :
  state_of o = Some s ->
  invoke c o =
  match exec c s with
  | Some (out, s') => Some (Returned out, store s' o)
  | None => None
  end.
Proof.
  destruct o as [[c0 t0| |] st sp ck tr del]; cbn [state_of pointers];
    try discriminate.
  intros H. injection H as <-.
  destruct c; try reflexivity.
  cbn [invoke exec]. unfold through_timer. cbn [state_of pointers exec].
  unfold ExpiresAt. destruct (ExpiresAt_expiry time); reflexivity.
Qed.

Lemma state_of_store (s : state) (o : object) : state_of (store s o) = Some s.
Proof. destruct s as [[c t ck tr] t0 t1]. reflexivity. Qed.

(** X12. The finalizer deletes the timer, then the context, each only if
    its pointer is set, and nulls both pointers; it leaves the recorded
    instants and the trace alone, so no handler runs, even with waits
    pending.  Running it again does nothing: after construction, the
    destructor followed by any number of finalizer runs has deleted
    each native object exactly once, the timer first. *)
Theorem finalizer_deletes_once (o : object) (now : time_point) (n : nat) :
  pointers (finalizer o) = Neither /\
  deleted (finalizer o) = deleted o ++ to_delete (pointers o) /\
  trace_of (finalizer o) = trace_of o /\
  startTime_of (finalizer o) = startTime_of o /\
  stopTime_of (finalizer o) = stopTime_of o /\
  finalizer (finalizer o) = finalizer o /\
  deleted (Nat.iter n finalizer (destructor (construct now)))
  = [native_timer; native_io_context].
Proof.
  assert (Hnull : forall o', pointers (finalizer o') = Neither)
    by (intros [[c t| c |] st sp ck tr del]; reflexivity).
  assert (Hdel : forall o', deleted (finalizer o')
                            = deleted o' ++ to_delete (pointers o'))
    by (intros [[c t| c |] st sp ck tr del]; cbn;
        rewrite <- ?app_assoc, ?app_nil_r; reflexivity).
  split; [apply Hnull|]. split; [apply Hdel|].
  split; [destruct o as [[c t| c |] st sp ck tr del]; reflexivity|].
  split; [destruct o as [[c t| c |] st sp ck tr del]; reflexivity|].
  split; [destruct o as [[c t| c |] st sp ck tr del]; reflexivity|].
  split; [destruct o as [[c t| c |] st sp ck tr del]; reflexivity|].
  assert (Hp : forall k,
             pointers (Nat.iter k finalizer (destructor (construct now))) = Neither).
  { intros [|k]; [reflexivity|]. rewrite Nat.iter_succ. apply Hnull. }
  induction n as [|n IH]; [reflexivity|].
  rewrite Nat.iter_succ, Hdel, Hp, IH. reflexivity.
Qed.

(** X13. After the destructor both pointers are null and no method checks
    them: [Wait], [ExpiresFromNow], [AsyncWait], [Cancel] and
    [CancelOne] use a null pointer, and so does [ExpiresAt] unless the
    date is before 1601, when [ToFileTime] throws first.  [Start],
    [Stop] and the three queries use neither pointer and return what
    they return on the live object. *)
Theorem calls_after_disposal (c : call) (o : object) :
  (dereferences c = true ->
   invoke c (destructor o) = Some (NullDereference, destructor o)) /\
  (dereferences c = false ->
   exists out o1 o2,
     invoke c (destructor o) = Some (Returned out, o1) /\
     invoke c o = Some (Returned out, o2) /\
     pointers o1 = Neither /\
     startTime_of o1 = startTime_of o2 /\ stopTime_of o1 = stopTime_of o2).
Proof.
  assert (Hn : state_of (destructor o) = None)
    by (destruct o as [[c0 t0| c0 |] st sp ck tr del]; reflexivity).
  split; intros Hd.
  - destruct c; try discriminate Hd; cbn [invoke]; unfold through_timer;
      rewrite ?Hn; try reflexivity.
    cbn [dereferences] in Hd. destruct (ExpiresAt_expiry time); [|discriminate].
    rewrite ?Hn. reflexivity.
  - destruct c; try discriminate Hd; cbn [invoke];
      try (destruct o as [[c0 t0| c0 |] st sp ck tr del];
           do 3 eexists; repeat split; reflexivity).
    cbn [dereferences] in Hd. destruct (ExpiresAt_expiry time); [discriminate|].
    destruct o as [[c0 t0| c0 |] st sp ck tr del];
      do 3 eexists; repeat split; reflexivity.
Qed.

Lemma calls_after_disposal_witness :
  invoke (call_AsyncWait [] 50 7%nat) (destructor (construct 0))
  = Some (NullDereference, destructor (construct 0)) /\
  exists out o1 o2,
    invoke call_GetElapsedMilliseconds (destructor (construct 0))
    = Some (Returned out, o1) /\
    invoke call_GetElapsedMilliseconds (construct 0) = Some (Returned out, o2).
Proof.
  split.
  - apply (calls_after_disposal (call_AsyncWait [] 50 7%nat) (construct 0)).
    reflexivity.
  - destruct (calls_after_disposal call_GetElapsedMilliseconds (construct 0))
      as [_ H].
    destruct H as (out & o1 & o2 & H1 & H2 & _); [reflexivity|].
    exists out, o1, o2. split; [exact H1|exact H2].
Defined.

(** X14. Between construction and disposal no call uses a null pointer and
    every call returns: any sequence of calls on a constructed object
    gives the outcomes the methods give on the state, and leaves both
    pointers set and nothing deleted. *)
Theorem live_object_never_faults (cs : list call) (now : time_point) :
  exists outs s' o',
    exec_all cs (SteadyTimer now) = Some (outs, s') /\
    invoke_all cs (construct now) = Some (map Returned outs, o') /\
    state_of o' = Some s' /\ deleted o' = [].
Proof.
  assert (H : forall cs s o,
             quiescent s -> state_of o = Some s -> deleted o = [] ->
             exists outs s' o',
               exec_all cs s = Some (outs, s') /\
               invoke_all cs o = Some (map Returned outs, o') /\
               state_of o' = Some s' /\ deleted o' = []).
  { clear cs. induction cs as [|c cs IH]; intros s o Hq Hs Hd.
    - exists [], s, o. repeat split; assumption.
    - destruct (exec_quiescent c s Hq) as (out & s1 & He & Hq1).
      destruct (IH s1 (store s1 o) Hq1 (state_of_store s1 o) Hd)
        as (outs & s' & o' & Ha & Hi & Hs' & Hd').
      exists (out :: outs), s', o'.
      cbn [exec_all invoke_all map]. rewrite (invoke_live c o s Hs), He, Ha, Hi.
      repeat split; assumption. }
  apply (H cs (SteadyTimer now) (construct now)).
  - apply SteadyTimer_quiescent.
  - reflexivity.
  - reflexivity.
Qed.

End Disposal.

(* ================================================================== *)
(** ** Facts about handlers that throw *)

Module ThrowingFacts.
Import Chrono Asio DotNet Timer Traces Throwing ChronoFacts ReactorFacts.
Import Waiting Draining.

Section Handlers.

Variable throws : Action -> bool.








(** A queue none of whose completions fires holds aborted waits only. *)
Lemma fired_nil_cons (h : Action) (ec : error_code)
  (q : list (completion * error_code)) :
  fired ((Lambda h, ec) :: q) = [] -> ec = operation_aborted /\ fired q = [].
Proof. rewrite fired_cons. destruct ec; [discriminate|auto]. Qed.

(** Such a queue is run to its end: nothing in it can throw. *)
Lemma run_loop_ex_drain (q : list (completion * error_code)) :
  forall fuel env w,
  ready (ctx w) = q -> fired q = [] ->
  run_loop_ex throws (length q + fuel) env w
  = run_loop_ex throws fuel env
      {| ctx := {| stopped := stopped (ctx w); ready := [] |};
         handle := handle w; clock := clock w;
         trace := trace w ++ dispatch_events q |}.
Proof.
  induction q as [|[[h] ec] q IH]; intros fuel env w Hq Hf.
  - destruct w as [[st rd] hd ck tr]. cbn in *. subst rd.
    rewrite app_nil_r. reflexivity.
  - apply fired_nil_cons in Hf. destruct Hf as [-> Hf].
    cbn [length Nat.add run_loop_ex]. rewrite Hq. cbn [raises].
    rewrite (IH fuel env (dispatch (Lambda h) operation_aborted q w)).
    + rewrite dispatch_events_cons. cbn. rewrite <- !app_assoc. reflexivity.
    + reflexivity.
    + exact Hf.
Qed.

(** Whether the single wait of an [AsyncWait] ends in an exception. *)
Definition wait_throws (env : list intrusion) (h : Action) : bool :=
  match indicator env with
  | success => throws h
  | operation_aborted => false
  end.

(** [run] with one wait pending behind a queue of aborted waits: the
    reactor ends up stopped and idle whether the handler throws or not;
    only the flag differs. *)
Lemma run_ex_with_one_pending (q : list (completion * error_code)) (h : Action)
  (ex ck : time_point) (tr : list event) (env : list intrusion) :
  fired q = [] ->
  run_ex throws env
    {| ctx := {| stopped := false; ready := q |};
       handle := {| expiry := ex; waiters := [Lambda h] |};
       clock := ck; trace := tr |}
  = Some (wait_throws env h,
          {| ctx := {| stopped := true; ready := [] |};
             handle := {| expiry := ex; waiters := [] |};
             clock := resolved_at env ck ex;
             trace := tr ++ [Called p_run] ++ dispatch_events q
                         ++ reactor_events env h |}).
Proof.
  intros Hf. unfold run_ex, log. cbn [ctx stopped trace handle clock].
  unfold work. cbn [handle waiters ctx ready length].
  replace (S (2 * 1 + length q)) with (length q + 3)%nat by lia.
  rewrite run_loop_ex_drain by (reflexivity || exact Hf).
  unfold wait_throws.
  destruct env as [|[late|dt|dt] env']; cbn -[Z.max Z.add Z.of_N];
    unfold mark_stopped, log, dispatch, invoke_completion, cancel_ops,
      cancel_one_op, pass, work_finished;
    cbn -[Z.max Z.add Z.of_N]; try destruct (throws h);
    cbn -[Z.max Z.add Z.of_N]; rewrite <- ?app_assoc, ?Z.add_0_r; reflexivity.
Qed.

(** [AsyncWait] on a reactor that is not stopped, behind a queue of
    aborted waits, with a handler that may throw. *)
Lemma AsyncWait_ex_from_running (s : state) (env : list intrusion) (ms : Z)
  (h : Action) :
  stopped (_ioContext s) = false ->
  fired (ready (_ioContext s)) = [] ->
  exists s',
    AsyncWait_ex throws env ms h s
    = Some (if wait_throws env h then Thrown else Void, s') /\
    stopped (_ioContext s') = wait_throws env h /\
    idle (heap s') /\
    _startTime s' = _startTime s /\ _stopTime s' = _stopTime s /\
    expiry (_timer s') = traits_add (clock (heap s)) (milliseconds ms) /\
    clock (heap s') = resolved_at env (clock (heap s)) (expiry (_timer s')) /\
    trace (heap s') =
      trace (heap s)
        ++ [Called (p_expires_after (milliseconds ms));
            Called (p_async_wait (Lambda h)); Called p_run]
        ++ dispatch_events
             (ready (_ioContext s)
                ++ with_status operation_aborted (waiters (_timer s)))
        ++ reactor_events env h
        ++ (if wait_throws env h then [] else [Called p_reset]).
Proof.
  destruct s as [[[st rd] [ex ws] ck tr] t0 t1].
  unfold _ioContext, _timer. cbn [heap ctx stopped handle ready waiters].
  intros -> Hf.
  assert (Hq : fired (rd ++ with_status operation_aborted ws) = [])
    by (rewrite fired_app, fired_aborted, Hf; reflexivity).
  unfold AsyncWait_ex, AsyncWait_arm, AsyncWait_register.
  unfold expires_after, set_expiry, async_wait, cancel_ops, log, with_heap.
  cbn [heap ctx handle clock trace stopped ready expiry waiters snd app].
  rewrite (run_ex_with_one_pending _ _ _ _ _ _ Hq).
  destruct (wait_throws env h); eexists; (split; [reflexivity|]);
    unfold idle, reset, log;
    cbn [heap ctx handle clock trace stopped ready expiry waiters
         _startTime _stopTime];
    repeat split; rewrite <- ?app_assoc, ?app_nil_r; reflexivity.
Qed.

(** [AsyncWait] on a stopped reactor: [run] returns at once, the handler
    is not run and the wait stays pending; [reset] then clears the
    flag. *)
Lemma AsyncWait_ex_from_stopped (s : state) (env : list intrusion) (ms : Z)
  (h : Action) :
  stopped (_ioContext s) = true ->
  exists s',
    AsyncWait_ex throws env ms h s = Some (Void, s') /\
    stopped (_ioContext s') = false /\
    ready (_ioContext s') =
      ready (_ioContext s) ++ with_status operation_aborted (waiters (_timer s)) /\
    waiters (_timer s') = [Lambda h] /\
    _startTime s' = _startTime s /\ _stopTime s' = _stopTime s /\
    expiry (_timer s') = traits_add (clock (heap s)) (milliseconds ms) /\
    clock (heap s') = clock (heap s) /\
    trace (heap s') =
      trace (heap s)
        ++ [Called (p_expires_after (milliseconds ms));
            Called (p_async_wait (Lambda h)); Called p_run; Called p_reset].
Proof.
  destruct s as [[[st rd] [ex ws] ck tr] t0 t1].
  unfold _ioContext, _timer. cbn [heap ctx stopped handle ready waiters].
  intros ->.
  unfold AsyncWait_ex, AsyncWait_arm, AsyncWait_register, run_ex.
  unfold expires_after, set_expiry, async_wait, cancel_ops, log, with_heap.
  cbn [heap ctx handle clock trace stopped ready expiry waiters snd app].
  eexists. split; [reflexivity|].
  unfold reset, log.
  cbn [heap ctx handle clock trace stopped ready expiry waiters
       _startTime _stopTime].
  repeat split. rewrite <- !app_assoc. reflexivity.
Qed.

Lemma registered_app (a b : list event) :
  registered (a ++ b) = registered a ++ registered b.
Proof.
  induction a as [|e a IH]; [reflexivity|].
  destruct e as [p| | |]; try destruct p; cbn [app registered];
    rewrite IH; reflexivity.
Qed.

Lemma registered_dispatch_events (q : list (completion * error_code)) :
  registered (dispatch_events q) = [].
Proof.
  induction q as [|[[h] ec] q IH]; [reflexivity|].
  rewrite dispatch_events_cons. destruct ec; cbn [app registered]; exact IH.
Qed.

Lemma reactor_events_facts (env : list intrusion) (h : Action) :
  registered (reactor_events env h) = [] /\
  completed (reactor_events env h) = [(Lambda h, indicator env)] /\
  invoked (reactor_events env h) = fired [(Lambda h, indicator env)].
Proof. destruct env as [|[late|dt|dt] env']; cbn; auto. Qed.

Lemma map_fst_with_status (ec : error_code) (cs : list completion) :
  map fst (with_status ec cs) = cs.
Proof.
  unfold with_status. rewrite map_map. cbn. apply map_id.
Qed.

(** What holds of the object between calls of one thread: only aborted
    waits are queued, at most one wait is pending, the timer is
    quiescent as long as no handler has thrown, every wait registered
    has been resolved once and in order or is still outstanding, and
    the handlers run are those of the waits resolved without error. *)
Definition kept (b : bool) (s : state) : Prop :=
  fired (ready (_ioContext s)) = [] /\
  (length (waiters (_timer s)) <= 1)%nat /\
  (b = false -> quiescent s) /\
  registered (trace (heap s))
  = map fst (completed (trace (heap s))) ++ outstanding s /\
  invoked (trace (heap s)) = fired (completed (trace (heap s))).

Lemma kept_step (b b' : bool) (s s' : state) (evs : list event) :
  kept b s ->
  trace (heap s') = trace (heap s) ++ evs ->
  fired (ready (_ioContext s')) = [] ->
  (length (waiters (_timer s')) <= 1)%nat ->
  (b' = false -> quiescent s') ->
  outstanding s ++ registered evs = map fst (completed evs) ++ outstanding s' ->
  invoked evs = fired (completed evs) ->
  kept b' s'.
Proof.
  intros (_ & _ & _ & Hreg & Hinv) Ht Hf Hl Hq Ho Hi.
  unfold kept. rewrite Ht.
  rewrite registered_app, completed_app, invoked_app, map_app, fired_app.
  split; [exact Hf|]. split; [exact Hl|]. split; [exact Hq|]. split.
  - rewrite Hreg, <- !app_assoc, Ho. reflexivity.
  - rewrite Hinv, Hi. reflexivity.
Qed.

(** Handing every pending wait to the reactor as aborted keeps what is
    kept; so do [expires_at], [expires_from_now] and [cancel], which log
    one call and do that. *)
Lemma kept_handover (b : bool) (s s' : state) (p : primitive) :
  kept b s ->
  (forall c, p <> p_async_wait c) ->
  trace (heap s') = trace (heap s) ++ [Called p] ->
  stopped (_ioContext s') = stopped (_ioContext s) ->
  ready (_ioContext s') =
    ready (_ioContext s) ++ with_status operation_aborted (waiters (_timer s)) ->
  waiters (_timer s') = [] ->
  kept b s'.
Proof.
  intros Hk Hp Ht Hs Hr Hw.
  destruct Hk as (Hf & Hl & Hq & Hreg & Hinv).
  apply (kept_step b b s s' [Called p]
           (conj Hf (conj Hl (conj Hq (conj Hreg Hinv)))) Ht).
  - rewrite Hr, fired_app, fired_aborted, Hf. reflexivity.
  - rewrite Hw. cbn. lia.
  - intros Hb. destruct (Hq Hb) as (Hst & Hrd & Hws).
    unfold quiescent, idle. fold (_ioContext s') (_timer s').
    unfold _ioContext, _timer in *.
    rewrite Hs, Hr, Hw, Hrd, Hws. auto.
  - unfold outstanding. rewrite Hr, Hw, map_app, map_fst_with_status.
    assert (Hn : registered [Called p] = [])
      by (destruct p; try reflexivity; exfalso; eapply Hp; reflexivity).
    rewrite Hn. cbn. rewrite !app_nil_r. reflexivity.
  - reflexivity.
Qed.

(** Every call keeps it, whether it returns or is left by an
    exception. *)
Lemma exec_ex_kept (b : bool) (c : call) (o : outcome) (s s' : state) :
  kept b s -> exec_ex throws c s = Some (o, s') ->
  kept (b || handler_threw c o) s'.
Proof.
  intros Hk He. destruct c; cbn [exec_ex exec] in He.
  - injection He as <- <-. cbn [handler_threw]. rewrite orb_false_r. exact Hk.
  - injection He as <- <-. cbn [handler_threw]. rewrite orb_false_r. exact Hk.
  - injection He as <- <-. cbn [handler_threw]. rewrite orb_false_r. exact Hk.
  - injection He as <- <-. cbn [handler_threw]. rewrite orb_false_r. exact Hk.
  - injection He as <- <-. cbn [handler_threw]. rewrite orb_false_r. exact Hk.
  - injection He as <- <-. cbn [handler_threw]. rewrite orb_false_r.
    destruct Hk as (Hf & Hl & Hq & Hreg & Hinv).
    apply (kept_step b b s (Wait late s) [Called p_wait]
             (conj Hf (conj Hl (conj Hq (conj Hreg Hinv)))));
      try reflexivity; try assumption.
    cbn. rewrite app_nil_r. reflexivity.
  - cbn [handler_threw]. rewrite orb_false_r.
    unfold ExpiresAt in He. destruct (ExpiresAt_expiry time) as [e|].
    + injection He as _ <-.
      apply (kept_handover b s _ (p_expires_at e) Hk);
        try reflexivity; discriminate.
    + injection He as _ <-. exact Hk.
  - injection He as <- <-. cbn [handler_threw]. rewrite orb_false_r.
    apply (kept_handover b s _ (p_expires_from_now (milliseconds ms)) Hk);
      try reflexivity; discriminate.
  - destruct (stopped (_ioContext s)) eqn:Hst.
    + destruct (AsyncWait_ex_from_stopped s env ms handler Hst)
        as (s1 & He1 & Hs1 & Hr1 & Hw1 & _ & _ & _ & _ & Ht1).
      rewrite He1 in He. injection He as <- <-.
      cbn [handler_threw]. rewrite orb_false_r.
      destruct Hk as (Hf & Hl & Hq & Hreg & Hinv).
      assert (Hb : b = true).
      { destruct b; [reflexivity|].
        destruct (Hq eq_refl) as (Hns & _). congruence. }
      subst b.
      apply (kept_step true true s s1 _
               (conj Hf (conj Hl (conj Hq (conj Hreg Hinv)))) Ht1).
      * rewrite Hr1, fired_app, fired_aborted, Hf. reflexivity.
      * rewrite Hw1. cbn. lia.
      * discriminate.
      * unfold outstanding. rewrite Hr1, Hw1, map_app, map_fst_with_status.
        cbn. rewrite <- !app_assoc. reflexivity.
      * reflexivity.
    + destruct Hk as (Hf & Hl & Hq & Hreg & Hinv).
      destruct (AsyncWait_ex_from_running s env ms handler Hst Hf)
        as (s1 & He1 & Hs1 & (Hr1 & Hw1) & _ & _ & _ & _ & Ht1).
      rewrite He1 in He. injection He as <- <-.
      destruct (reactor_events_facts env handler) as (Hrr & Hrc & Hri).
      apply (kept_step b _ s s1 _
               (conj Hf (conj Hl (conj Hq (conj Hreg Hinv)))) Ht1).
      * unfold _ioContext. rewrite Hr1. reflexivity.
      * unfold _timer. rewrite Hw1. cbn. lia.
      * intros Hb. apply orb_false_iff in Hb. destruct Hb as [_ Hb].
        assert (Hth : wait_throws env handler = false)
          by (destruct (wait_throws env handler); [discriminate Hb|reflexivity]).
        unfold quiescent, idle. rewrite Hs1, Hth. auto.
      * unfold outstanding at 2. unfold _ioContext, _timer. rewrite Hr1, Hw1.
        cbn [map app registered completed]. rewrite app_nil_r.
        rewrite !registered_app, !completed_app, registered_dispatch_events,
          completed_dispatch_events, Hrr, Hrc.
        assert (Htail : registered (if wait_throws env handler
                                    then [] else [Called p_reset]) = [] /\
                        completed (if wait_throws env handler
                                   then [] else [Called p_reset]) = [])
          by (destruct (wait_throws env handler); auto).
        destruct Htail as [Hta Htb]. rewrite Hta, Htb.
        cbn [registered completed app]. rewrite ?app_nil_r.
        unfold outstanding. rewrite !map_app, map_fst_with_status.
        cbn [map fst]. rewrite <- ?app_assoc. cbn [app]. reflexivity.
      * cbn [app invoked completed].
        rewrite !invoked_app, !completed_app, invoked_dispatch_events,
          completed_dispatch_events, Hri, Hrc.
        assert (Htail : invoked (if wait_throws env handler
                                 then [] else [Called p_reset]) = [] /\
                        completed (if wait_throws env handler
                                   then [] else [Called p_reset]) = [])
          by (destruct (wait_throws env handler); auto).
        destruct Htail as [Hta Htb]. rewrite Hta, Htb.
        cbn [invoked completed app]. rewrite ?app_nil_r, ?fired_app.
        reflexivity.
  - cbn [handler_threw]. rewrite orb_false_r.
    unfold Cancel in He. destruct (cancel (heap s)) as [n w] eqn:Hc.
    injection He as _ <-.
    unfold cancel, cancel_ops in Hc. injection Hc as <- <-.
    apply (kept_handover b s _ (p_cancel (length (waiters (handle (heap s))))) Hk);
      try reflexivity; discriminate.
  - cbn [handler_threw]. rewrite orb_false_r.
    unfold CancelOne in He. destruct (cancel_one (heap s)) as [n w] eqn:Hc.
    injection He as _ <-.
    unfold cancel_one, cancel_one_op in Hc.
    destruct Hk as (Hf & Hl & Hq & Hreg & Hinv).
    destruct (waiters (handle (heap s))) as [|c0 rest] eqn:Hws.
    + injection Hc as <- <-.
      apply (kept_step b b s _ [Called (p_cancel_one 0)]
               (conj Hf (conj Hl (conj Hq (conj Hreg Hinv)))));
        try reflexivity; try assumption.
      unfold outstanding, _ioContext, _timer. cbn. rewrite ?app_nil_r. reflexivity.
    + injection Hc as <- <-. destruct c0 as [h0].
      apply (kept_step b b s _ [Called (p_cancel_one 1)]
               (conj Hf (conj Hl (conj Hq (conj Hreg Hinv)))));
        try reflexivity.
      * unfold _ioContext. cbn. unfold _ioContext in Hf.
        rewrite fired_app, Hf. reflexivity.
      * unfold _timer in *. cbn. rewrite Hws in Hl. cbn in Hl. lia.
      * intros Hb. destruct (Hq Hb) as (_ & _ & Hw0).
        unfold _timer in *. congruence.
      * unfold outstanding, _ioContext, _timer. cbn. rewrite Hws, map_app.
        cbn. rewrite app_nil_r, <- !app_assoc. reflexivity.
Qed.

Lemma reachable_kept (b : bool) (s : state) : reachable throws b s -> kept b s.
Proof.
  induction 1 as [now | b t s _ IH _ | b c o s s' _ IH He].
  - unfold kept, quiescent, idle, outstanding. cbn. repeat split. lia.
  - exact IH.
  - apply (exec_ex_kept b c o s s' IH He).
Qed.

Lemma any_threw_cons (c : call) (cs : list call) (o : outcome)
  (os : list outcome) :
  any_threw (c :: cs) (o :: os) = handler_threw c o || any_threw cs os.
Proof. reflexivity. Qed.

(** A sequence of calls leads from a reachable state to a reachable
    state. *)
Lemma exec_all_ex_reachable (cs : list call) : forall b os s s',
  reachable throws b s -> exec_all_ex throws cs s = Some (os, s') ->
  reachable throws (b || any_threw cs os) s'.
Proof.
  induction cs as [|c cs IH]; intros b os s s' Hr He; cbn [exec_all_ex] in He.
  - injection He as <- <-. cbn. rewrite orb_false_r. exact Hr.
  - destruct (exec_ex throws c s) as [[o s1]|] eqn:Hc; [|discriminate].
    destruct (exec_all_ex throws cs s1) as [[os1 s2]|] eqn:Hcs; [|discriminate].
    injection He as <- <-.
    rewrite any_threw_cons, orb_assoc.
    apply (IH _ os1 s1 s2); [|exact Hcs].
    apply (reach_call throws b c o s s1 Hr Hc).
Qed.


End Handlers.

End ThrowingFacts.

(* ================================================================== *)
(** ** Sequences of asynchronous waits *)

Module Sequences.
Import Chrono Asio DotNet Timer Traces Throwing ChronoFacts ReactorFacts.
Import Waiting Draining ThrowingFacts.






End Sequences.

(* ================================================================== *)
(** ** What holds between calls *)

Module Invariants.
Import Chrono Asio DotNet Timer Traces Throwing ChronoFacts ReactorFacts.
Import Waiting Draining ThrowingFacts.

(** The handlers a queue fires are among the handlers of its completions. *)
Lemma fired_count (h : Action) (q : list (completion * error_code)) :
  (count_occ Nat.eq_dec (fired q) h
   <= count_occ Nat.eq_dec
        (map (fun c => match c with Lambda h' => h' end) (map fst q)) h)%nat.
Proof.
  induction q as [|[[h'] ec] q IH]; [apply Nat.le_refl|].
  rewrite fired_cons. cbn [map fst]. rewrite count_occ_app.
  destruct ec; cbn [count_occ]; destruct (Nat.eq_dec h' h); cbn;
    first [exact IH | apply le_n_S; exact IH | apply le_S; exact IH].
Qed.

(** X4. In every state one thread can bring the timer to, whatever other
    threads do during the waits and whether or not handlers throw
    (handlers do not call the timer themselves), each
    wait that [AsyncWait] registered has been resolved at most once, in
    call order, the ones not resolved being exactly those still queued
    or pending; the handlers run are exactly those of the waits resolved
    without error, so no handler has run more often than [AsyncWait] was
    called with it; and as long as no handler has thrown, every
    registered wait has been resolved. *)
Theorem every_wait_resolved_once (throws : Action -> bool) (b : bool)
  (s : state) :
  reachable throws b s ->
  registered (trace (heap s))
  = map fst (completed (trace (heap s))) ++ outstanding s /\
  invoked (trace (heap s)) = fired (completed (trace (heap s))) /\
  (forall h,
     (invocations h (trace (heap s)) <= registrations h (trace (heap s)))%nat) /\
  (b = false ->
   outstanding s = [] /\
   registered (trace (heap s)) = map fst (completed (trace (heap s)))).
Proof.
  intros Hr. destruct (reachable_kept throws b s Hr) as (_ & _ & Hq & H1 & H2).
  split; [exact H1|]. split; [exact H2|]. split.
  - intros h. unfold invocations, registrations. rewrite H2, H1.
    rewrite map_app, count_occ_app.
    eapply Nat.le_trans; [apply fired_count|apply Nat.le_add_r].
  - intros Hb. destruct (Hq Hb) as (_ & Hrd & Hw).
    assert (Ho : outstanding s = [])
      by (unfold outstanding, _ioContext, _timer; rewrite Hrd, Hw; reflexivity).
    split; [exact Ho|]. rewrite H1, Ho, app_nil_r. reflexivity.
Qed.

Lemma every_wait_resolved_once_witness :
  let throws := fun h => Nat.eqb h 9 in
  let s := after throws
             [call_AsyncWait [] 50 9%nat; call_AsyncWait [] 30 2%nat]
             (SteadyTimer 0) in
  registered (trace (heap s)) = [Lambda 9%nat; Lambda 2%nat] /\
  completed (trace (heap s)) = [(Lambda 9%nat, success)] /\
  outstanding s = [Lambda 2%nat] /\
  (invocations 2%nat (trace (heap s)) <= registrations 2%nat (trace (heap s)))%nat.
Proof.
  intros throws s.
  destruct (every_wait_resolved_once throws true s) as (_ & _ & H3 & _).
  - apply (exec_all_ex_reachable throws
             [call_AsyncWait [] 50 9%nat; call_AsyncWait [] 30 2%nat]
             false [Thrown; Void] (SteadyTimer 0) s);
      [apply reach_new|vm_compute; reflexivity].
  - split; [reflexivity|]. split; [reflexivity|]. split; [reflexivity|].
    exact (H3 2%nat).
Defined.

(** X5. In every state one thread can bring the timer to, handler
    exceptions included (handlers do not call the timer themselves),
    [Cancel] and [CancelOne] return the same count, 0 or 1, and leave
    the same deadline handle and reactor.  As long as no handler has thrown the
    count is 0 and the handle and the reactor stay as they were:
    [AsyncWait] returns only once its wait is resolved, so the thread
    that owns the timer finds no wait to cancel. *)
Theorem owner_finds_nothing_to_cancel (throws : Action -> bool) (b : bool)
  (s : state) :
  reachable throws b s ->
  fst (Cancel s) = fst (CancelOne s) /\
  (fst (Cancel s) = 0 \/ fst (Cancel s) = 1) /\
  _timer (snd (Cancel s)) = _timer (snd (CancelOne s)) /\
  _ioContext (snd (Cancel s)) = _ioContext (snd (CancelOne s)) /\
  (b = false ->
   fst (Cancel s) = 0 /\
   _timer (snd (Cancel s)) = _timer s /\
   _ioContext (snd (Cancel s)) = _ioContext s).
Proof.
  intros Hr. destruct (reachable_kept throws b s Hr) as (_ & Hl & Hq & _).
  destruct s as [[[st rd] [ex ws] ck tr] t0 t1].
  unfold _timer, _ioContext, quiescent, idle in *. cbn in Hl, Hq.
  destruct ws as [|c [|c' ws]]; cbn in Hl; try lia.
  - split; [reflexivity|]. split; [left; reflexivity|].
    split; [reflexivity|]. split; [cbn; rewrite app_nil_r; reflexivity|].
    intros Hb. destruct (Hq Hb) as (-> & -> & _). repeat split.
  - split; [reflexivity|]. split; [right; reflexivity|].
    split; [reflexivity|]. split; [reflexivity|].
    intros Hb. destruct (Hq Hb) as (_ & _ & Hw). discriminate Hw.
Qed.

Lemma owner_finds_nothing_to_cancel_witness :
  let throws := fun h => Nat.eqb h 9 in
  fst (Cancel (after throws
                 [call_ExpiresFromNow 100; call_AsyncWait [] 50 1%nat]
                 (SteadyTimer 0))) = 0 /\
  fst (CancelOne (after throws
                    [call_AsyncWait [] 50 9%nat; call_AsyncWait [] 30 2%nat]
                    (SteadyTimer 0))) = 1.
Proof.
  intros throws. split.
  - destruct (owner_finds_nothing_to_cancel throws false
                (after throws
                   [call_ExpiresFromNow 100; call_AsyncWait [] 50 1%nat]
                   (SteadyTimer 0))) as (_ & _ & _ & _ & H0).
    + apply (exec_all_ex_reachable throws
               [call_ExpiresFromNow 100; call_AsyncWait [] 50 1%nat]
               false [Void; Void] (SteadyTimer 0));
        [apply reach_new|vm_compute; reflexivity].
    + destruct (H0 eq_refl) as (Hz & _). exact Hz.
  - destruct (owner_finds_nothing_to_cancel throws true
                (after throws
                   [call_AsyncWait [] 50 9%nat; call_AsyncWait [] 30 2%nat]
                   (SteadyTimer 0))) as (He & _).
    + apply (exec_all_ex_reachable throws
               [call_AsyncWait [] 50 9%nat; call_AsyncWait [] 30 2%nat]
               false [Thrown; Void] (SteadyTimer 0));
        [apply reach_new|vm_compute; reflexivity].
    + rewrite <- He. reflexivity.
Defined.

(** X15. [AsyncWait] has no [try]/[finally]: when its handler throws,
    the handler has run, the exception leaves [AsyncWait], [reset] is
    not reached and the reactor stays stopped.  The next [AsyncWait]
    then returns without blocking: its handler is not run and its wait
    stays pending, so that [Cancel] finds one wait.  The
    [AsyncWait] after that aborts the stale wait without running its
    handler, resolves its own, and leaves the timer quiescent again. *)
Theorem handler_exception_skips_reset (throws : Action -> bool) (s : state)
  (env1 env2 env3 : list intrusion) (ms1 ms2 ms3 : Z) (h1 h2 h3 : Action) :
  quiescent s ->
  throws h1 = true -> indicator env1 = success -> throws h3 = false ->
  exists s1 s2 s3,
    (AsyncWait_ex throws env1 ms1 h1 s = Some (Thrown, s1) /\
     stopped (_ioContext s1) = true /\
     invoked (trace (heap s1)) = invoked (trace (heap s)) ++ [h1] /\
     called (trace (heap s1)) =
       called (trace (heap s))
         ++ [p_expires_after (milliseconds ms1); p_async_wait (Lambda h1); p_run]) /\
    (AsyncWait_ex throws env2 ms2 h2 s1 = Some (Void, s2) /\
     invoked (trace (heap s2)) = invoked (trace (heap s1)) /\
     completed (trace (heap s2)) = completed (trace (heap s1)) /\
     waiters (_timer s2) = [Lambda h2] /\
     fst (Cancel s2) = 1) /\
    (AsyncWait_ex throws env3 ms3 h3 s2 = Some (Void, s3) /\
     quiescent s3 /\
     completed (trace (heap s3)) =
       completed (trace (heap s2))
         ++ [(Lambda h2, operation_aborted); (Lambda h3, indicator env3)] /\
     invoked (trace (heap s3)) =
       invoked (trace (heap s2)) ++ fired [(Lambda h3, indicator env3)]).
Proof.
  intros (Hs & Hr & Hw) Hth1 Hi1 Hth3.
  assert (Hf : fired (ready (_ioContext s)) = [])
    by (unfold _ioContext; rewrite Hr; reflexivity).
  destruct (AsyncWait_ex_from_running throws s env1 ms1 h1 Hs Hf)
    as (s1 & He1 & Hs1 & (Hr1 & Hw1) & _ & _ & _ & _ & Ht1).
  assert (Hwt1 : wait_throws throws env1 h1 = true)
    by (unfold wait_throws; rewrite Hi1; exact Hth1).
  rewrite Hwt1 in He1, Hs1, Ht1.
  destruct (AsyncWait_ex_from_stopped throws s1 env2 ms2 h2 Hs1)
    as (s2 & He2 & Hs2 & Hr2 & Hw2 & _ & _ & _ & Hck2 & Ht2).
  assert (Hf2 : fired (ready (_ioContext s2)) = [])
    by (rewrite Hr2; unfold _ioContext, _timer; rewrite Hr1, Hw1; reflexivity).
  destruct (AsyncWait_ex_from_running throws s2 env3 ms3 h3 Hs2 Hf2)
    as (s3 & He3 & Hs3 & Hi3 & _ & _ & _ & _ & Ht3).
  assert (Hwt3 : wait_throws throws env3 h3 = false)
    by (unfold wait_throws; rewrite Hth3; destruct (indicator env3); reflexivity).
  rewrite Hwt3 in He3, Hs3, Ht3.
  destruct (reactor_events_facts env1 h1) as (_ & Hc1 & Hv1).
  destruct (reactor_events_facts env3 h3) as (_ & Hc3 & Hv3).
  exists s1, s2, s3. split; [|split].
  - split; [exact He1|]. split; [exact Hs1|].
    assert (Hcr : called (reactor_events env1 h1) = [])
      by (destruct env1 as [|[late|dt|dt] env']; reflexivity).
    rewrite Ht1. unfold _ioContext, _timer. rewrite Hr, Hw.
    rewrite !invoked_app, !called_app, invoked_dispatch_events,
      called_dispatch_events, Hv1, Hi1, Hcr.
    cbn -[milliseconds]. rewrite ?app_nil_r. split; reflexivity.
  - split; [exact He2|].
    rewrite Ht2, !invoked_app, !completed_app.
    cbn -[milliseconds]. rewrite !app_nil_r.
    split; [reflexivity|]. split; [reflexivity|]. split; [exact Hw2|].
    unfold Cancel, cancel, cancel_ops. unfold _timer in Hw2. rewrite Hw2.
    reflexivity.
  - split; [exact He3|]. split; [split; assumption|].
    rewrite Ht3. rewrite Hr2, Hw2. unfold _ioContext, _timer. rewrite Hr1, Hw1.
    rewrite !completed_app, !invoked_app, completed_dispatch_events,
      invoked_dispatch_events, Hc3, Hv3.
    cbn -[milliseconds]. rewrite ?app_nil_r. split; reflexivity.
Qed.

Lemma handler_exception_skips_reset_witness :
  let throws := fun h => Nat.eqb h 9 in
  exists s1 s2 s3,
    AsyncWait_ex throws [] 50 9%nat (SteadyTimer 0) = Some (Thrown, s1) /\
    AsyncWait_ex throws [] 30 2%nat s1 = Some (Void, s2) /\
    invoked (trace (heap s2)) = invoked (trace (heap s1)) /\
    fst (Cancel s2) = 1 /\
    AsyncWait_ex throws [] 20 3%nat s2 = Some (Void, s3) /\
    quiescent s3.
Proof.
  intros throws.
  destruct (handler_exception_skips_reset throws (SteadyTimer 0)
              [] [] [] 50 30 20 9%nat 2%nat 3%nat)
    as (s1 & s2 & s3 & (H1 & _) & (H2 & Hi & _ & _ & Hc) & (H3 & Hq & _)).
  - repeat split; reflexivity.
  - reflexivity.
  - reflexivity.
  - reflexivity.
  - exists s1, s2, s3. split; [exact H1|]. split; [exact H2|].
    split; [exact Hi|]. split; [exact Hc|]. split; [exact H3|exact Hq].
Defined.

End Invariants.

(* ================================================================== *)
(** ** How long the waits block *)

Module Blocking.
Import Chrono IEEE Asio Timer Traces ChronoFacts IEEEFacts ReactorFacts.
Import Waiting Stopwatch Deadline Draining.

(** A wait that is not cancelled is resolved no earlier than the
    expiry, and no wait is resolved before [run] blocked on it. *)
Lemma resolved_at_bounds (env : list intrusion) (now expiry : time_point) :
  now <= resolved_at env now expiry /\
  (indicator env = success -> expiry <= resolved_at env now expiry).
Proof.
  destruct env as [|[late|dt|dt] env']; cbn -[Z.max]; split;
    try discriminate; intros; lia.
Qed.

(** X1. [ExpiresFromNow] followed by [Wait] returns no earlier than the
    deadline, the call instant plus the duration, and no earlier than
    the call; how much later is up to the scheduler.  [Wait] does not
    drive the reactor: nothing is dispatched, no handler runs, and the
    handle and the reactor are as [ExpiresFromNow] left them. *)
Theorem Wait_returns_no_earlier (s : state) (ms : Z) (late : N) :
  int32 ms -> int64 (clock (heap s)) ->
  int64 (clock (heap s) + ms * ns_per_ms) ->
  let s' := Wait late (ExpiresFromNow ms s) in
  clock (heap s) + ms * ns_per_ms <= clock (heap s') /\
  clock (heap s) <= clock (heap s') /\
  clock (heap s') =
    Z.max (clock (heap s)) (clock (heap s) + ms * ns_per_ms) + Z.of_N late /\
  _timer s' = _timer (ExpiresFromNow ms s) /\
  _ioContext s' = _ioContext (ExpiresFromNow ms s) /\
  completed (trace (heap s')) = completed (trace (heap s)) /\
  invoked (trace (heap s')) = invoked (trace (heap s)).
Proof.
  intros Hms Hnow Hsum s'.
  assert (Hc : clock (heap s')
               = Z.max (clock (heap s)) (clock (heap s) + ms * ns_per_ms)
                 + Z.of_N late).
  { destruct (relative_expiry s ms) as (He & _).
    change (clock (heap s'))
      with (Z.max (clock (heap s)) (expiry (_timer (ExpiresFromNow ms s)))
            + Z.of_N late).
    rewrite He, (relative_expiry_exact _ _ Hms Hnow Hsum). reflexivity. }
  rewrite Hc.
  split; [lia|]. split; [lia|]. split; [reflexivity|].
  split; [reflexivity|]. split; [reflexivity|].
  unfold s', Wait, wait, ExpiresFromNow, expires_from_now, set_expiry, log.
  cbn [heap with_heap trace cancel_ops snd].
  rewrite !completed_app, !invoked_app. cbn. rewrite !app_nil_r. auto.
Qed.

Lemma Wait_returns_no_earlier_witness :
  100005000 <= clock (heap (Wait 61169 (ExpiresFromNow 100 (at_instant 5000 (SteadyTimer 0))))) /\
  clock (heap (Wait 0 (ExpiresFromNow (-3) (at_instant 5000 (SteadyTimer 0)))))
  = 5000.
Proof.
  split.
  - destruct (Wait_returns_no_earlier (at_instant 5000 (SteadyTimer 0)) 100 61169)
      as (Hc & _); [in_range|in_range|in_range|exact Hc].
  - destruct (Wait_returns_no_earlier (at_instant 5000 (SteadyTimer 0)) (-3) 0)
      as (_ & _ & Hc & _); [in_range|in_range|in_range|exact Hc].
Defined.

(** X2. [AsyncWait] on a reactor that is not stopped never returns
    before it was called, and when its wait was not cancelled it
    returns no earlier than the deadline, the handler having run.  A
    stopwatch started just before and stopped just after an uncancelled
    wait of [ms >= 0] milliseconds reads at least [ms]. *)
Theorem AsyncWait_returns_no_earlier
  (s : state) (env : list intrusion) (ms : Z) (h : Action) :
  stopped (_ioContext s) = false ->
  int32 ms -> int64 (clock (heap s)) ->
  int64 (clock (heap s) + ms * ns_per_ms) ->
  exists s',
    AsyncWait env ms h (Start s) = Some s' /\
    clock (heap s) <= clock (heap s') /\
    (indicator env = success ->
     clock (heap s) + ms * ns_per_ms <= clock (heap s') /\
     (0 <= ms -> clock (heap s') - clock (heap s) <= int64_max ->
      exists r,
        whole_value (GetElapsedMilliseconds (Stop s')) = Some r /\ ms <= r)).
Proof.
  intros Hs Hms Hnow Hsum.
  destruct (AsyncWait_from_running (Start s) env ms h Hs)
    as (s' & He & _ & Hst & _ & Hex & Hck & _).
  exists s'. split; [exact He|].
  cbn [Start heap _startTime] in Hst, Hex, Hck.
  rewrite (relative_expiry_exact _ _ Hms Hnow Hsum) in Hex.
  unfold relative_deadline in Hex. change 1000000 with ns_per_ms in Hex.
  rewrite Hex in Hck.
  destruct (resolved_at_bounds env (clock (heap s))
              (clock (heap s) + ms * ns_per_ms)) as [Hlo Hhi].
  rewrite <- Hck in Hlo, Hhi.
  split; [exact Hlo|].
  intros Hi. specialize (Hhi Hi). split; [exact Hhi|].
  intros Hpos Hmax.
  exists (Z.quot (clock (heap s') - clock (heap s)) ns_per_ms).
  assert (Hr : int64 (clock (heap s') - clock (heap s)))
    by (unfold int64, int64_min, int64_max in *; lia).
  unfold GetElapsedMilliseconds, Stop. cbn [_stopTime _startTime].
  rewrite Hst. unfold duration_cast_milliseconds, tp_diff.
  rewrite (wrap64_id _ Hr).
  split.
  - apply elapsed_double_exact; [exact Hr|unfold ns_per_ms; lia].
  - rewrite <- (Z.quot_mul ms ns_per_ms) at 1 by (unfold ns_per_ms; lia).
    apply Z.quot_le_mono; [unfold ns_per_ms; lia|lia].
Qed.

Lemma AsyncWait_returns_no_earlier_witness :
  exists s' r,
    AsyncWait [Elapse 61169] 25 7%nat (Start (at_instant 1000 (SteadyTimer 0)))
    = Some s' /\
    whole_value (GetElapsedMilliseconds (Stop s')) = Some r /\ 25 <= r.
Proof.
  destruct (AsyncWait_returns_no_earlier
              (at_instant 1000 (SteadyTimer 0)) [Elapse 61169] 25 7%nat)
    as (s' & He & _ & Hm); [reflexivity|in_range|in_range|in_range|].
  destruct (Hm eq_refl) as (_ & Hr).
  destruct Hr as (r & Hv & Hle).
  - lia.
  - assert (Hs : Some s' = AsyncWait [Elapse 61169] 25 7%nat
                             (Start (at_instant 1000 (SteadyTimer 0))))
      by (symmetry; exact He).
    vm_compute in Hs. injection Hs as ->. vm_compute. discriminate.
  - exists s', r. split; [exact He|]. split; [exact Hv|exact Hle].
Defined.

End Blocking.
